(** * afl-showmap: run a program once and display its trace bitmap

    A shallow embedding of [afl-showmap.c].  The pure bitmap algorithms
    ([classify_counts], [count_bits]) are functions over the contents of
    the shared region; the rest of the tool ([setup_shm], [run_target],
    [show_tuples], [usage], [main]) runs in a small state-and-exit monad
    over the tool's global variables, with the operating system's answers
    supplied by a [world] record and every external call recorded in a log. *)

From Stdlib Require Import ZArith String Ascii List Lia DecimalString.
From stdpp Require Import base numbers list strings.

Local Open Scope Z_scope.

(** ** Machine integers *)

(** [u8] and [u32] values are integers reduced modulo the width; [s32]
    values are taken in two's complement. *)
Definition wrap8 (x : Z) : Z := x mod 2 ^ 8.
Definition wrap32 (x : Z) : Z := x mod 2 ^ 32.
Definition to_s32 (x : Z) : Z :=
  let y := wrap32 x in if y <? 2 ^ 31 then y else y - 2 ^ 32.

Definition is_u8 (v : Z) : bool := (0 <=? v) && (v <=? 255).

(** A region of [size] bytes. *)
Definition is_region (size : Z) (mem : list Z) : bool :=
  (Z.of_nat (length mem) =? size) && forallb is_u8 mem.

(** ** Classification of hit counts *)

(** The [switch] on [*mem] in [classify_counts]: the value stored back
    into the entry.  A value matching no case is left as it is. *)
Definition classify (v : Z) : Z :=
  if v =? 3 then wrap8 (Z.shiftl 1 2)
  else if (4 <=? v) && (v <=? 7) then wrap8 (Z.shiftl 1 3)
  else if (8 <=? v) && (v <=? 15) then wrap8 (Z.shiftl 1 4)
  else if (16 <=? v) && (v <=? 31) then wrap8 (Z.shiftl 1 5)
  else if (32 <=? v) && (v <=? 127) then wrap8 (Z.shiftl 1 6)
  else if (128 <=? v) && (v <=? 255) then wrap8 (Z.shiftl 1 7)
  else v.

(** [while (i--) { switch ...; mem++; }]: [i] iterations remain and
    [mem] points [ptr] bytes into the region.  Reading outside the region
    has no defined result. *)
Fixpoint classify_loop (i : nat) (ptr : nat) (mem : list Z) : option (list Z) :=
  match i with
  | O => Some mem
  | S i' =>
      match mem !! ptr with
      | Some v => classify_loop i' (S ptr) (<[ptr := classify v]> mem)
      | None => None
      end
  end.

(** ** Counting set bits *)

(** [*(ptr++)] on a [u32*]: four consecutive bytes, combined in the byte
    order of the machine. *)
Definition load_u32 (big_endian : bool) (mem : list Z) (k : nat) : option Z :=
  match mem !! (4 * k)%nat, mem !! (4 * k + 1)%nat,
        mem !! (4 * k + 2)%nat, mem !! (4 * k + 3)%nat with
  | Some b0, Some b1, Some b2, Some b3 =>
      Some (if big_endian
            then b3 + 2 ^ 8 * b2 + 2 ^ 16 * b1 + 2 ^ 24 * b0
            else b0 + 2 ^ 8 * b1 + 2 ^ 16 * b2 + 2 ^ 24 * b3)
  | _, _, _, _ => None
  end.

(** The three statements of the loop body of [count_bits], on a [u32]:
    the value added to [ret]. *)
Definition popcount_word (v : Z) : Z :=
  let v := wrap32 (v - Z.land (Z.shiftr v 1) 0x55555555) in
  let v := wrap32 (Z.land v 0x33333333 + Z.land (Z.shiftr v 2) 0x33333333) in
  Z.shiftr (wrap32 (Z.land (wrap32 (v + Z.shiftr v 4)) 0xF0F0F0F * 0x1010101)) 24.

Fixpoint count_loop (big_endian : bool) (i : nat) (ptr : nat) (ret : Z)
    (mem : list Z) : option Z :=
  match i with
  | O => Some ret
  | S i' =>
      match load_u32 big_endian mem ptr with
      | Some v =>
          count_loop big_endian i' (S ptr) (wrap32 (ret + popcount_word v)) mem
      | None => None
      end
  end.

(** The per-bit reference count the word-wise computation is compared
    with: every bit of every byte is looked at on its own. *)
Definition byte_bits (b : Z) : list Z :=
  map (fun k => Z.b2z (Z.testbit b (Z.of_nat k))) (seq 0 8).

Definition sum_digits (ds : list Z) : Z := foldr Z.add 0 ds.

Definition bits_of_byte (b : Z) : Z := sum_digits (byte_bits b).

Definition count_set_bits (mem : list Z) : Z := sum_digits (map bits_of_byte mem).

(** ** Positional numerals

    Support for the correctness proof of [popcount_word]: a word seen as a
    list of digits in base [B], least significant first. *)
Fixpoint val (B : Z) (ds : list Z) : Z :=
  match ds with
  | [] => 0
  | d :: r => d + B * val B r
  end.

Fixpoint keep (B : Z) (ms : list bool) (ds : list Z) : list Z :=
  match ms, ds with
  | m :: ms', d :: ds' => (if m then d else 0) :: keep B ms' ds'
  | _, _ => []
  end.

Definition mask_val (B : Z) (ms : list bool) : Z :=
  val B (map (fun m : bool => if m then B - 1 else 0) ms).

Fixpoint pairs_add (ds : list Z) : list Z :=
  match ds with
  | a :: b :: r => (a + b) :: pairs_add r
  | _ => []
  end.

Definition digits_below (B : Z) (ds : list Z) : Prop :=
  Forall (fun d => 0 <= d < B) ds.

(** A check of [P] on the [n] integers from [lo] on. *)
Fixpoint all_from (P : Z -> bool) (lo : Z) (n : nat) : bool :=
  match n with
  | O => true
  | S n' => P lo && all_from P (lo + 1) n'
  end.

(** ** Formatted output *)

Definition nl : string := String "010"%char EmptyString.

(** An argument of a formatted print: an integer, or a string pointer
    ([None] for a null pointer). *)
Inductive parg :=
| PInt (n : Z)
| PStr (s : option string).

Definition dec (n : Z) : string := NilZero.string_of_uint (N.to_uint (Z.to_N n)).

Fixpoint fill (c : ascii) (n : nat) : string :=
  match n with
  | O => EmptyString
  | S n' => String c (fill c n')
  end.

(** Right-justification in a field of at least [width] characters. *)
Definition pad (zero : bool) (width : nat) (s : string) : string :=
  fill (if zero then "0"%char else " "%char) (width - String.length s) +:+ s.

Definition is_digit (c : ascii) : bool :=
  (48 <=? nat_of_ascii c)%nat && (nat_of_ascii c <=? 57)%nat.

Inductive pstate :=
| Lit
| Spec (zero : bool) (width : nat).

(** The conversions the tool uses: [%u], [%d] and [%s], with an optional
    [0] flag and minimum field width, and [%%].  A directive that does not
    match its argument has no defined output. *)
Fixpoint printf (st : pstate) (fmt : string) (args : list parg) : option string :=
  match fmt with
  | EmptyString => match st with Lit => Some EmptyString | Spec _ _ => None end
  | String c fmt' =>
      match st with
      | Lit =>
          if Ascii.eqb c "%" then printf (Spec false 0) fmt' args
          else String c <$> printf Lit fmt' args
      | Spec zero width =>
          if Ascii.eqb c "%" then String c <$> printf Lit fmt' args
          else if is_digit c then
            if Ascii.eqb c "0" && Nat.eqb width 0 then printf (Spec true 0) fmt' args
            else printf (Spec zero (10 * width + (nat_of_ascii c - 48))) fmt' args
          else
            match args with
            | PInt n :: args' =>
                if Ascii.eqb c "u" then
                  (fun r => pad zero width (dec (wrap32 n)) +:+ r)
                    <$> printf Lit fmt' args'
                else if Ascii.eqb c "d" then
                  (fun r => (if to_s32 n <? 0
                             then if zero
                                  then "-" +:+ pad true (width - 1) (dec (- to_s32 n))
                                  else pad false width ("-" +:+ dec (- to_s32 n))
                             else pad zero width (dec (to_s32 n))) +:+ r)
                    <$> printf Lit fmt' args'
                else None
            | PStr s :: args' =>
                if Ascii.eqb c "s" then
                  (fun r => pad false width (default "(null)"%string s) +:+ r)
                    <$> printf Lit fmt' args'
                else None
            | [] => None
            end
      end
  end.

Definition render (fmt : string) (args : list parg) : option string :=
  printf Lit fmt args.

(** The format of a line of the tuple report, [show_tuples]. *)
Definition tuple_fmt : string := "%05u/%u" +:+ nl.

(** The report line as the specification words it: the index in decimal,
    padded with zeros on the left to five digits, a slash, the classified
    value in decimal, and a newline. *)
Definition report_line (i v : Z) : string :=
  fill "0"%char (5 - String.length (dec i)) +:+ dec i +:+ "/" +:+ dec v +:+ nl.

(** ** The process and its environment *)

(** What the tool does to the outside, in the order it does it. *)
Inductive event :=
| Say (fmt : string) (args : list parg)
| Fatal (fmt : string) (args : list parg)
| PFatal (fmt : string) (args : list parg)
| Shmget (size : Z)
| Shmat (id : Z)
| ShmRemove (id : Z)
| Setenv (name value : string)
| Pipe
| Fork
| Close (fd : Z)
| Write (fd : Z) (count : Z)
| Read (fd : Z) (count : Z)
| Getrlimit
| Setrlimit (cur : Z)
| Open (path : string)
| Dup2 (oldfd newfd : Z)
| Execvp (path : option string).

(** How the process ends: [exit], death by a signal, or replacement of the
    process image by [execvp] in the forked child. *)
Inductive outcome :=
| Exited (status : Z)
| Signaled (sig : Z)
| Replaced (path : option string).

(** The answers of the environment to the calls of one run. *)
Record world := {
  w_argv : list string;
  w_quiet : bool;                 (* AFL_QUIET is set *)
  w_sink : bool;                  (* AFL_SINK_OUTPUT is set *)
  w_shmget : Z;
  w_shmat : Z;                    (* address, or -1 when nothing is attached *)
  w_pipe_st : Z * (Z * Z);        (* result, read end, write end *)
  w_pipe_ctl : Z * (Z * Z);
  w_fork : Z;
  w_write : Z;
  w_read : nat -> Z * Z;          (* n-th read of the status pipe: result, word *)
  w_bitmap : list Z;              (* the region as the target leaves it *)
  w_getrlimit : Z * Z;            (* result, rlim_cur *)
  w_open : Z;
  w_dup2 : nat -> Z;              (* n-th dup2 of the child *)
  w_execvp : bool                 (* the image is replaced *)
}.

(** The tool's global variables, the attached region, what [atexit] has
    registered, and the log. *)
Record state := {
  forksrv_pid : Z;
  child_pid : Z;
  trace_bits : Z;
  shm_id : Z;
  sink_output : Z;
  be_quiet : Z;
  shm : option (list Z);
  at_exit : bool;
  n_read : nat;
  n_dup2 : nat;
  log : list event
}.

Definition init_state : state :=
  {| forksrv_pid := 0; child_pid := 0; trace_bits := 0; shm_id := 0;
     sink_output := 0; be_quiet := 0; shm := None; at_exit := false;
     n_read := 0; n_dup2 := 0; log := [] |}.

Definition set_forksrv_pid (v : Z) (s : state) : state :=
  {| forksrv_pid := v; child_pid := child_pid s; trace_bits := trace_bits s;
     shm_id := shm_id s; sink_output := sink_output s; be_quiet := be_quiet s;
     shm := shm s; at_exit := at_exit s; n_read := n_read s;
     n_dup2 := n_dup2 s; log := log s |}.
Definition set_child_pid (v : Z) (s : state) : state :=
  {| forksrv_pid := forksrv_pid s; child_pid := v; trace_bits := trace_bits s;
     shm_id := shm_id s; sink_output := sink_output s; be_quiet := be_quiet s;
     shm := shm s; at_exit := at_exit s; n_read := n_read s;
     n_dup2 := n_dup2 s; log := log s |}.
Definition set_trace_bits (v : Z) (s : state) : state :=
  {| forksrv_pid := forksrv_pid s; child_pid := child_pid s; trace_bits := v;
     shm_id := shm_id s; sink_output := sink_output s; be_quiet := be_quiet s;
     shm := shm s; at_exit := at_exit s; n_read := n_read s;
     n_dup2 := n_dup2 s; log := log s |}.
Definition set_shm_id (v : Z) (s : state) : state :=
  {| forksrv_pid := forksrv_pid s; child_pid := child_pid s;
     trace_bits := trace_bits s; shm_id := v; sink_output := sink_output s;
     be_quiet := be_quiet s; shm := shm s; at_exit := at_exit s;
     n_read := n_read s; n_dup2 := n_dup2 s; log := log s |}.
Definition set_sink_output (v : Z) (s : state) : state :=
  {| forksrv_pid := forksrv_pid s; child_pid := child_pid s;
     trace_bits := trace_bits s; shm_id := shm_id s; sink_output := v;
     be_quiet := be_quiet s; shm := shm s; at_exit := at_exit s;
     n_read := n_read s; n_dup2 := n_dup2 s; log := log s |}.
Definition set_be_quiet (v : Z) (s : state) : state :=
  {| forksrv_pid := forksrv_pid s; child_pid := child_pid s;
     trace_bits := trace_bits s; shm_id := shm_id s;
     sink_output := sink_output s; be_quiet := v; shm := shm s;
     at_exit := at_exit s; n_read := n_read s; n_dup2 := n_dup2 s;
     log := log s |}.
Definition set_shm (v : option (list Z)) (s : state) : state :=
  {| forksrv_pid := forksrv_pid s; child_pid := child_pid s;
     trace_bits := trace_bits s; shm_id := shm_id s;
     sink_output := sink_output s; be_quiet := be_quiet s; shm := v;
     at_exit := at_exit s; n_read := n_read s; n_dup2 := n_dup2 s;
     log := log s |}.
Definition set_at_exit (v : bool) (s : state) : state :=
  {| forksrv_pid := forksrv_pid s; child_pid := child_pid s;
     trace_bits := trace_bits s; shm_id := shm_id s;
     sink_output := sink_output s; be_quiet := be_quiet s; shm := shm s;
     at_exit := v; n_read := n_read s; n_dup2 := n_dup2 s; log := log s |}.
Definition set_n_read (v : nat) (s : state) : state :=
  {| forksrv_pid := forksrv_pid s; child_pid := child_pid s;
     trace_bits := trace_bits s; shm_id := shm_id s;
     sink_output := sink_output s; be_quiet := be_quiet s; shm := shm s;
     at_exit := at_exit s; n_read := v; n_dup2 := n_dup2 s; log := log s |}.
Definition set_n_dup2 (v : nat) (s : state) : state :=
  {| forksrv_pid := forksrv_pid s; child_pid := child_pid s;
     trace_bits := trace_bits s; shm_id := shm_id s;
     sink_output := sink_output s; be_quiet := be_quiet s; shm := shm s;
     at_exit := at_exit s; n_read := n_read s; n_dup2 := v; log := log s |}.
Definition add_log (es : list event) (s : state) : state :=
  {| forksrv_pid := forksrv_pid s; child_pid := child_pid s;
     trace_bits := trace_bits s; shm_id := shm_id s;
     sink_output := sink_output s; be_quiet := be_quiet s; shm := shm s;
     at_exit := at_exit s; n_read := n_read s; n_dup2 := n_dup2 s;
     log := log s ++ es |}.
Definition emit (e : event) (s : state) : state := add_log [e] s.

(** A computation either goes on with a value or ends the process. *)
Inductive result (A : Type) :=
| Continue (a : A) (s : state)
| Halt (o : outcome) (s : state).
Arguments Continue {A} a s.
Arguments Halt {A} o s.

Definition M (A : Type) : Type := state -> result A.

#[global] Instance M_ret : MRet M := fun A a s => Continue a s.
(** Sequencing: what follows runs only when the process goes on. *)
Definition bind_result {A B} (r : result A) (f : A -> M B) : result B :=
  match r with
  | Continue a s' => f a s'
  | Halt o s' => Halt o s'
  end.
#[global] Instance M_bind : MBind M := fun A B f m s => bind_result (m s) f.

Definition gets {A} (f : state -> A) : M A := fun s => Continue (f s) s.
Definition modify (f : state -> state) : M unit := fun s => Continue tt (f s).
Definition halt {A} (o : outcome) : M A := fun s => Halt o s.
Definition when (b : bool) (m : M unit) : M unit := if b then m else mret tt.

Definition exit_status {A} (r : result A) : option Z :=
  match r with
  | Halt (Exited status) _ => Some status
  | _ => None
  end.

Definition final_state {A} (r : result A) : state :=
  match r with
  | Continue _ s => s
  | Halt _ s => s
  end.

Definition SIGSEGV : Z := 11.

(** The outcome of a memory access: a fault when there is nothing to
    read. *)
Definition deref_result {A} (o : option A) (s : state) : result A :=
  match o with
  | Some a => Continue a s
  | None => Halt (Signaled SIGSEGV) s
  end.

(** [WTERMSIG] and [WIFSIGNALED] of the C library, on a wait status. *)
Definition to_s8 (x : Z) : Z :=
  let y := wrap8 x in if y <? 2 ^ 7 then y else y - 2 ^ 8.
Definition WTERMSIG (status : Z) : Z := Z.land status 0x7f.
Definition WIFSIGNALED (status : Z) : bool :=
  0 <? Z.shiftr (to_s8 (Z.land status 0x7f + 1)) 1.

(** What [shmat] leaves at the address it returns: nothing when it failed
    (the address is then -1), else a region of [size] bytes, zero at first. *)
Definition attached (addr size : Z) : option (list Z) :=
  if (addr =? -1) || (addr =? 0) then None
  else Some (replicate (Z.to_nat size) 0).

(** ** The tool *)

Section Showmap.

(** Constants of [config.h] and [debug.h], and of the build. *)
Variable MAP_SIZE : Z.
Variable FORKSRV_FD : Z.
Variable SHM_ENV_VAR : string.
Variable VERSION : string.
Variables cCYA cBRI cRST : string.
Variables BUILD_DATE BUILD_TIME : string.

(** The non-zero status a fatal error ends the process with. *)
Variable fatal_status : Z.

(** The byte order of the machine, and the environment of the run. *)
Variable big_endian : bool.
Variable w : world.

(** *** Bitmap algorithms *)

(** [classify_counts(mem)], with [mem] the start of the region. *)
Definition classify_counts (mem : list Z) : option (list Z) :=
  classify_loop (Z.to_nat (wrap32 MAP_SIZE)) 0 mem.

(** [count_bits()], on the contents of the region at [trace_bits]. *)
Definition count_bits (mem : list Z) : option Z :=
  count_loop big_endian (Z.to_nat (wrap32 (Z.shiftr MAP_SIZE 2))) 0 0 mem.

(** *** Messages and termination *)

(** Modelled from the spec: the macro [SAYF] of [debug.h], which is not
    among the sources; a formatted message on the tool's output. *)
Definition SAYF (fmt : string) (args : list parg) : M unit :=
  modify (emit (Say fmt args)).

(** [remove_shm()], the handler registered with [atexit]. *)
Definition remove_shm : M unit :=
  id ← gets shm_id; modify (emit (ShmRemove id)).

(** [exit(status)]: the registered handler runs, then the process ends. *)
Definition exit {A} (status : Z) : M A :=
  h ← gets at_exit; when h remove_shm;; halt (Exited status).

(** Modelled from the spec: the macros [FATAL] and [PFATAL] of [debug.h],
    which are not among the sources; a message on the diagnostic stream
    and immediate termination with a non-zero status, cleanup included. *)
Definition FATAL {A} (fmt : string) (args : list parg) : M A :=
  modify (emit (Fatal fmt args));; exit fatal_status.
Definition PFATAL {A} (fmt : string) (args : list parg) : M A :=
  modify (emit (PFatal fmt args));; exit fatal_status.

(** Access to the region through [trace_bits]; without a mapping there
    the access faults. *)
Definition with_trace_bits {A} (f : list Z -> option A) : M A := fun s =>
  deref_result (shm s ≫= f) s.

(** *** [show_tuples] *)

(** The [for] loop over [i] from 0 up to [MAP_SIZE], printing the entry
    [current] points to when it is not zero; [n] iterations to go. *)
Fixpoint show_loop (n : nat) (i : Z) : M unit :=
  match n with
  | O => mret tt
  | S n' =>
      v ← with_trace_bits (fun mem => mem !! Z.to_nat i);
      when (negb (v =? 0)) (SAYF tuple_fmt [PInt i; PInt v]);;
      show_loop n' (wrap32 (i + 1))
  end.

Definition show_tuples : M unit :=
  mem ← with_trace_bits classify_counts;
  modify (set_shm (Some mem));;
  show_loop (Z.to_nat (wrap32 MAP_SIZE)) 0.

(** *** [setup_shm] *)

Definition setup_shm : M unit :=
  modify (emit (Shmget MAP_SIZE));;
  modify (set_shm_id (to_s32 (w_shmget w)));;
  id ← gets shm_id;
  (if id <? 0 then PFATAL "shmget() failed" [] else mret tt);;
  modify (set_at_exit true);;
  modify (emit (Setenv SHM_ENV_VAR (default EmptyString (render "%d" [PInt id]))));;
  modify (emit (Shmat id));;
  modify (set_trace_bits (w_shmat w));;
  modify (set_shm (attached (w_shmat w) MAP_SIZE));;
  tb ← gets trace_bits;
  if tb =? 0 then PFATAL "shmat() failed" [] else mret tt.

(** *** System calls of [run_target] *)

Definition sys_pipe (r : Z * (Z * Z)) : M (Z * (Z * Z)) :=
  modify (emit Pipe);; mret r.

(** In the parent, the region is from now on what the target makes it;
    the parent looks at it only after the handshake. *)
Definition sys_fork : M Z :=
  modify (emit Fork);;
  when (0 <? to_s32 (w_fork w))
    (modify (fun s => set_shm ((fun _ => w_bitmap w) <$> shm s) s));;
  mret (to_s32 (w_fork w)).

Definition sys_close (fd : Z) : M unit := modify (emit (Close fd)).

Definition sys_write (fd count : Z) : M Z :=
  modify (emit (Write fd count));; mret (w_write w).

(** [read(fd, &var, count)]: the result, and the contents of [var]
    afterwards ([old] before).  After a short read the tool never looks
    at [var] again. *)
Definition sys_read (fd count : Z) (old : Z) : M (Z * Z) := fun s =>
  let r := fst (w_read w (n_read s)) in
  let word := snd (w_read w (n_read s)) in
  Continue (r, if r =? 4 then to_s32 word else old)
           (set_n_read (S (n_read s)) (emit (Read fd count) s)).

Definition sys_dup2 (oldfd newfd : Z) : M Z := fun s =>
  Continue (w_dup2 w (n_dup2 s))
           (set_n_dup2 (S (n_dup2 s)) (emit (Dup2 oldfd newfd) s)).

Definition sys_open (path : string) : M Z :=
  modify (emit (Open path));; mret (to_s32 (w_open w)).

(** [execvp] returns only when it fails. *)
Definition sys_execvp (argv : list string) : M Z :=
  modify (emit (Execvp (argv !! 0%nat)));;
  if w_execvp w then halt (Replaced (argv !! 0%nat)) else mret (-1).

Definition handshake_msg : string :=
  "No instrumentation detected or fork server fault".

(** The branch [if (!forksrv_pid) { ... }]: the forked child. *)
Definition run_target_child (argv : list string) (st_pipe ctl_pipe : Z * Z)
    : M unit :=
  modify (emit Getrlimit);;
  when ((fst (w_getrlimit w) =? 0) && (snd (w_getrlimit w) <? FORKSRV_FD + 2))
       (modify (emit (Setrlimit (FORKSRV_FD + 2))));;
  so ← gets sink_output;
  (if negb (so =? 0) then
     fd ← sys_open "/dev/null";
     (if fd <? 0 then PFATAL "Cannot open /dev/null" [] else mret tt);;
     d1 ← sys_dup2 fd 1;
     (if d1 <? 0 then PFATAL "dup2() failed" [] else
        d2 ← sys_dup2 fd 2;
        if d2 <? 0 then PFATAL "dup2() failed" [] else mret tt);;
     sys_close fd
   else mret tt);;
  d ← sys_dup2 (fst ctl_pipe) FORKSRV_FD;
  (if d <? 0 then PFATAL "dup2() failed" [] else mret tt);;
  d ← sys_dup2 (snd st_pipe) (FORKSRV_FD + 1);
  (if d <? 0 then PFATAL "dup2() failed" [] else mret tt);;
  sys_close (fst ctl_pipe);;
  sys_close (snd ctl_pipe);;
  sys_close (fst st_pipe);;
  sys_close (snd st_pipe);;
  sys_execvp argv;;
  PFATAL "Unable to execute '%s'" [PStr (argv !! 0%nat)].

(** From [close(ctl_pipe[0])] to the end of [run_target]: the parent's
    side of the handshake. *)
Definition run_target_parent (status : Z) (st_pipe ctl_pipe : Z * Z) : M unit :=
  sys_close (fst ctl_pipe);;
  sys_close (snd st_pipe);;
  n ← sys_write (snd ctl_pipe) 4;
  (if negb (n =? 4) then FATAL handshake_msg [] else mret tt);;
  '(n, status) ← sys_read (fst st_pipe) 4 status;
  (if negb (n =? 4) then FATAL handshake_msg [] else mret tt);;
  cp ← gets child_pid;
  '(n, cp) ← sys_read (fst st_pipe) 4 cp;
  modify (set_child_pid cp);;
  (if negb (n =? 4) then FATAL handshake_msg [] else mret tt);;
  cp ← gets child_pid;
  (if cp <=? 0 then FATAL handshake_msg [] else mret tt);;
  '(n, status) ← sys_read (fst st_pipe) 4 status;
  (if negb (n =? 4) then FATAL handshake_msg [] else mret tt);;
  when (WIFSIGNALED status)
       (SAYF ("+++ Killed by signal %u +++" +:+ nl) [PInt (WTERMSIG status)]).

Definition run_target (argv : list string) : M unit :=
  let status := 0 in
  '(r, st_pipe) ← sys_pipe (w_pipe_st w);
  (if negb (r =? 0) then PFATAL "pipe() failed" [] else mret tt);;
  '(r, ctl_pipe) ← sys_pipe (w_pipe_ctl w);
  (if negb (r =? 0) then PFATAL "pipe() failed" [] else mret tt);;
  pid ← sys_fork;
  modify (set_forksrv_pid pid);;
  pid ← gets forksrv_pid;
  (if pid <? 0 then PFATAL "fork() failed" [] else mret tt);;
  pid ← gets forksrv_pid;
  (if pid =? 0 then run_target_child argv st_pipe ctl_pipe else mret tt);;
  run_target_parent status st_pipe ctl_pipe.

(** *** [usage] and [main] *)

Definition usage_fmt : string :=
  nl +:+ "%s /path/to/traced_app [ ... ]" +:+ nl +:+ nl +:+
  "Shows all instrumentation tuples recorded when executing a binary compiled"
    +:+ nl +:+
  "with afl-gcc or afl-clang. You can set AFL_SINK_OUTPUT=1 to sink all output"
    +:+ nl +:+
  "from the executed program, or AFL_QUIET=1 to suppress non-fatal messages"
    +:+ nl +:+
  "from this tool." +:+ nl +:+ nl.

Definition usage {A} (argv0 : option string) : M A :=
  SAYF usage_fmt [PStr argv0];; exit 1.

Definition banner_fmt : string :=
  cCYA +:+ "afl-showmap " +:+ cBRI +:+ VERSION +:+ cRST +:+ " (" +:+
  BUILD_DATE +:+ " " +:+ BUILD_TIME +:+ ") by <lcamtuf@google.com>" +:+ nl.

Definition output_begins_fmt : string :=
  nl +:+ "-- Program output begins --" +:+ nl.
Definition output_ends_fmt : string := "-- Program output ends --" +:+ nl.
Definition tuples_recorded_fmt : string :=
  cBRI +:+ nl +:+ "Tuples recorded:" +:+ nl +:+ nl +:+ cRST.
Definition no_data_msg : string := "No instrumentation data recorded".

Definition main (argc : Z) (argv : list string) : M unit :=
  (if negb (w_quiet w) then SAYF banner_fmt [] else modify (set_be_quiet 1));;
  (if argc <? 2 then usage (argv !! 0%nat) else mret tt);;
  setup_shm;;
  when (w_sink w) (modify (set_sink_output 1));;
  q ← gets be_quiet; so ← gets sink_output;
  when ((q =? 0) && (so =? 0)) (SAYF output_begins_fmt []);;
  run_target (tail argv);;
  q ← gets be_quiet; so ← gets sink_output;
  when ((q =? 0) && (so =? 0)) (SAYF output_ends_fmt []);;
  n ← with_trace_bits count_bits;
  (if n =? 0 then FATAL no_data_msg [] else mret tt);;
  q ← gets be_quiet;
  when (q =? 0) (SAYF tuples_recorded_fmt []);;
  show_tuples;;
  exit 0.

(** The run of the tool: [main] from the initial state, called with the
    argument vector of the environment. *)
Definition run : result unit :=
  main (Z.of_nat (length (w_argv w))) (w_argv w) init_state.

End Showmap.

(** ** Conditions on the environment *)

(** The run gets as far as the handshake: there is a target argument, the
    region is allocated and its address is not null, the pipes are made and
    the fork succeeds (the process considered is the parent). *)
Definition reaches_handshake (w : world) : bool :=
  negb (Z.of_nat (length (w_argv w)) <? 2) && negb (to_s32 (w_shmget w) <? 0)
  && negb (w_shmat w =? 0) && (fst (w_pipe_st w) =? 0)
  && (fst (w_pipe_ctl w) =? 0) && (0 <? to_s32 (w_fork w)).

(** The trigger is written in full; the three fields arrive in full, from
    the read number [k] on, and the worker's pid is positive. *)
Definition handshake_ok (w : world) (k : nat) : bool :=
  (w_write w =? 4) && (fst (w_read w k) =? 4) && (fst (w_read w (S k)) =? 4)
  && negb (to_s32 (snd (w_read w (S k))) <=? 0)
  && (fst (w_read w (S (S k))) =? 4).

(** The number of reads of the status pipe the handshake makes. *)
Definition reads_made (w : world) (k : nat) : nat :=
  if negb (w_write w =? 4) then 0
  else if negb (fst (w_read w k) =? 4) then 1
  else if negb (fst (w_read w (S k)) =? 4) then 2
  else if to_s32 (snd (w_read w (S k))) <=? 0 then 2
  else 3.

(** A region is attached at [trace_bits]. *)
Definition region_mapped (w : world) : bool := negb (w_shmat w =? -1).

Definition is_read (e : event) : bool :=
  match e with Read _ _ => true | _ => false end.
Definition is_write (e : event) : bool :=
  match e with Write _ _ => true | _ => false end.
Definition is_fatal (e : event) : bool :=
  match e with Fatal _ _ | PFatal _ _ => true | _ => false end.
Definition is_say (e : event) : bool :=
  match e with Say _ _ => true | _ => false end.
Definition is_shm_call (e : event) : bool :=
  match e with Shmget _ | Shmat _ => true | _ => false end.

(** The run completes the handshake and finds a set bit in the region. *)
Definition success (w : world) : bool :=
  reaches_handshake w && handshake_ok w 0 && region_mapped w
  && negb (count_set_bits (w_bitmap w) =? 0).

(** The same environment with other settings of [AFL_QUIET] and
    [AFL_SINK_OUTPUT]. *)
Definition with_toggles (quiet sink : bool) (w : world) : world :=
  {| w_argv := w_argv w; w_quiet := quiet; w_sink := sink;
     w_shmget := w_shmget w; w_shmat := w_shmat w; w_pipe_st := w_pipe_st w;
     w_pipe_ctl := w_pipe_ctl w; w_fork := w_fork w; w_write := w_write w;
     w_read := w_read w; w_bitmap := w_bitmap w; w_getrlimit := w_getrlimit w;
     w_open := w_open w; w_dup2 := w_dup2 w; w_execvp := w_execvp w |}.

(** ** The tuple report, as the specification describes it *)

(** The entries of a bitmap that are not zero, with their indices, in
    ascending order of the index. *)
Definition touched (mem : list Z) : list (nat * Z) :=
  filter (fun p => snd p <> 0) (imap pair mem).

(** The call that prints the line of one entry. *)
Definition tuple_event (p : nat * Z) : event :=
  Say tuple_fmt [PInt (Z.of_nat (fst p)); PInt (snd p)].

(** The text a log puts on the tool's output. *)
Definition output_text (es : list event) : string :=
  foldr (fun e acc =>
           match e with
           | Say fmt args => default EmptyString (render fmt args) +:+ acc
           | _ => acc
           end) EmptyString es.

(** The lines of the tuple report: one per touched entry of the classified
    bitmap. *)
Definition report_text (raw : list Z) : string :=
  foldr (fun p acc => report_line (Z.of_nat (fst p)) (snd p) +:+ acc)
        EmptyString (touched (map classify raw)).

(** The events of a log that print a line of the tuple report. *)
Definition is_tuple_event (e : event) : bool :=
  match e with
  | Say fmt _ => String.eqb fmt tuple_fmt
  | _ => false
  end.

Definition tuple_lines (es : list event) : list event :=
  List.filter is_tuple_event es.

(** A run: the tool called with one target argument, a region attached, a
    handshake that succeeds with worker pid 1235, and a bitmap whose entries
    10 and 20 were hit once and five times. *)
Definition sample_world : world :=
  {| w_argv := ["afl-showmap"; "./target"]%string;
     w_quiet := false; w_sink := false;
     w_shmget := 5; w_shmat := 4096;
     w_pipe_st := (0, (3, 4)); w_pipe_ctl := (0, (5, 6));
     w_fork := 1234; w_write := 4;
     w_read := fun k => (4, nth k [0; 1235; 0] 0);
     w_bitmap := <[10%nat := 1]> (<[20%nat := 5]> (replicate (Z.to_nat 65536) 0));
     w_getrlimit := (0, 1024); w_open := 7; w_dup2 := fun _ => 0;
     w_execvp := true |}.

(** ** What a run is expected to do

    Predicates on the result of a run; the boolean arguments are the
    conditions on the environment the result is compared with. *)

(** The status is 0 exactly when [ok] holds, and the report lines of the log
    are [lines] then, and none otherwise. *)
Definition outcome_spec (ok : bool) (lines : list event) (r : result unit)
    : Prop :=
  (exit_status r = Some 0 <-> ok = true) /\
  tuple_lines (log (final_state r)) = if ok then lines else [].


(** A run without a target argument: status 1, the banner unless quiet and
    the usage text in the log, and nothing else. *)
Definition usage_spec (banner : string) (quiet : bool) (argv0 : option string)
    (r : result unit) : Prop :=
  exit_status r = Some 1 /\
  log (final_state r)
  = (if quiet then [] else [Say banner []]) ++ [Say usage_fmt [PStr argv0]] /\
  shm (final_state r) = None.

(** The parent's side of [run_target], from a log [before]: one write of
    the trigger to [ct1]; [reads] reads of four bytes from [st0], at most
    three; when [ok], all three, the worker's pid stored, no fatal message,
    and the signal line printed exactly when the status read last says
    [signaled]; else the end of the process with the one handshake
    message. *)
Definition handshake_spec (fatal_status st0 ct1 : Z) (ok : bool) (reads : nat)
    (pid : Z) (signaled : bool) (sig : Z) (before : list event)
    (r : result unit) : Prop :=
  exists new,
    log (final_state r) = before ++ new /\
    List.filter is_write new = [Write ct1 4] /\
    List.filter is_read new = replicate reads (Read st0 4) /\
    (reads <= 3)%nat /\
    (ok = true ->
     reads = 3%nat /\ List.filter is_fatal new = [] /\
     List.filter is_say new
     = (if signaled
        then [Say ("+++ Killed by signal %u +++" +:+ nl) [PInt sig]]
        else []) /\
     exists s', r = Continue tt s' /\ child_pid s' = pid) /\
    (ok = false ->
     exit_status r = Some fatal_status /\
     List.filter is_fatal new = [Fatal handshake_msg []]).


(** ** Further conditions and observations of a run *)

(** The 32 bits of a word, least significant first. *)
Definition word_bits (v : Z) : list Z :=
  map (fun k => Z.b2z (Z.testbit v (Z.of_nat k))) (seq 0 32).

Definition is_shm_remove (e : event) : bool :=
  match e with ShmRemove _ => true | _ => false end.
Definition is_fork (e : event) : bool :=
  match e with Fork => true | _ => false end.

(** The process ends by [exit]. *)
Definition exited {A} (r : result A) : bool :=
  match r with
  | Halt (Exited _) _ => true
  | _ => false
  end.

(** The handler is registered with [atexit]: there is a target argument and
    [shmget] gave an identifier. *)
Definition cleanup_registered (w : world) : bool :=
  negb (Z.of_nat (length (w_argv w)) <? 2) && negb (to_s32 (w_shmget w) <? 0).

(** The run gets as far as [fork]. *)
Definition reaches_fork (w : world) : bool :=
  negb (Z.of_nat (length (w_argv w)) <? 2) && negb (to_s32 (w_shmget w) <? 0)
  && negb (w_shmat w =? 0) && (fst (w_pipe_st w) =? 0)
  && (fst (w_pipe_ctl w) =? 0).

(** The messages of a run that succeeds, in order. *)
Definition success_says (banner tuples_recorded : string) (quiet sink : bool)
    (signaled : bool) (sig : Z) (lines : list event) : list event :=
  (if quiet then [] else [Say banner []])
  ++ (if quiet || sink then [] else [Say output_begins_fmt []])
  ++ (if signaled
      then [Say ("+++ Killed by signal %u +++" +:+ nl) [PInt sig]] else [])
  ++ (if quiet || sink then [] else [Say output_ends_fmt []])
  ++ (if quiet then [] else [Say tuples_recorded []])
  ++ lines.

(** What the log of a run holds: the region is removed once, by the handler
    and when the process ends by [exit] after the registration; there is one
    [fork] when the run gets that far; a run that completes the handshake
    without a region at [trace_bits] dies of a fault, with no fatal message;
    and the messages of a run that succeeds are [says]. *)
Definition trace_spec (registered : bool) (id : Z) (forks shake mapped ok : bool)
    (says : list event) (r : result unit) : Prop :=
  List.filter is_shm_remove (log (final_state r))
  = (if registered && exited r then [ShmRemove id] else []) /\
  (registered && exited r = true ->
   last (log (final_state r)) = Some (ShmRemove id)) /\
  List.filter is_fork (log (final_state r)) = (if forks then [Fork] else []) /\
  (shake = true -> mapped = false ->
   (exists s', r = Halt (Signaled SIGSEGV) s') /\
   List.filter is_fatal (log (final_state r)) = []) /\
  (ok = true -> List.filter is_say (log (final_state r)) = says).



(** The sample run in an environment where [shmat] fails and returns -1. *)
Definition detached_world : world :=
  {| w_argv := w_argv sample_world; w_quiet := false; w_sink := false;
     w_shmget := 5; w_shmat := -1;
     w_pipe_st := (0, (3, 4)); w_pipe_ctl := (0, (5, 6));
     w_fork := 1234; w_write := 4;
     w_read := w_read sample_world; w_bitmap := w_bitmap sample_world;
     w_getrlimit := (0, 1024); w_open := 7; w_dup2 := fun _ => 0;
     w_execvp := true |}.


(** * Proofs *)

(** ** Bitwise operations on positional numerals *)

Lemma land_mod_pow2 x y k : 0 <= k ->
  Z.land x y mod 2 ^ k = Z.land (x mod 2 ^ k) (y mod 2 ^ k).
Proof.
  intros Hk. rewrite <- !Z.land_ones by lia.
  apply Z.bits_inj'. intros n Hn. rewrite !Z.land_spec.
  destruct (Z.testbit x n), (Z.testbit y n), (Z.testbit (Z.ones k) n); reflexivity.
Qed.

Lemma land_concat k a b c d :
  0 <= k -> 0 <= a < 2 ^ k -> 0 <= c < 2 ^ k ->
  Z.land (a + 2 ^ k * b) (c + 2 ^ k * d) = Z.land a c + 2 ^ k * Z.land b d.
Proof.
  intros Hk Ha Hc.
  assert (Hp : 0 < 2 ^ k) by (apply Z.pow_pos_nonneg; lia).
  rewrite (Z.div_mod (Z.land (a + 2 ^ k * b) (c + 2 ^ k * d)) (2 ^ k)) by lia.
  rewrite land_mod_pow2 by lia.
  rewrite <- Z.shiftr_div_pow2, Z.shiftr_land, !Z.shiftr_div_pow2 by lia.
  replace ((a + 2 ^ k * b) mod 2 ^ k) with a
    by (apply Z.mod_unique with b; lia).
  replace ((c + 2 ^ k * d) mod 2 ^ k) with c
    by (apply Z.mod_unique with d; lia).
  replace ((a + 2 ^ k * b) / 2 ^ k) with b
    by (apply Z.div_unique with a; lia).
  replace ((c + 2 ^ k * d) / 2 ^ k) with d
    by (apply Z.div_unique with c; lia).
  lia.
Qed.

Lemma val_nonneg B ds : 0 < B -> digits_below B ds -> 0 <= val B ds.
Proof.
  intros HB H. induction H as [|d r Hd _ IH]; cbn [val]; [lia|nia].
Qed.

Lemma val_bound B ds : 0 < B -> digits_below B ds ->
  0 <= val B ds < B ^ Z.of_nat (length ds).
Proof.
  intros HB H. induction H as [|d r Hd _ IH]; cbn [val length].
  - rewrite Z.pow_0_r. lia.
  - rewrite Nat2Z.inj_succ, Z.pow_succ_r by lia. nia.
Qed.

Lemma land_keep B k ms ds :
  0 <= k -> B = 2 ^ k -> digits_below B ds ->
  Z.land (val B ds) (mask_val B ms) = val B (keep B ms ds).
Proof.
  intros Hk -> H. revert ms. unfold mask_val.
  assert (Hp : 0 < 2 ^ k) by (apply Z.pow_pos_nonneg; lia).
  induction H as [|d r Hd Hr IH]; intros [|m ms]; cbn [val keep map].
  - reflexivity.
  - apply Z.land_0_l.
  - apply Z.land_0_r.
  - rewrite land_concat; [|lia|lia|destruct m; lia].
    rewrite IH. f_equal. destruct m.
    + replace (2 ^ k - 1) with (Z.ones k) by (rewrite Z.ones_equiv; lia).
      rewrite Z.land_ones by lia. apply Z.mod_small. lia.
    + apply Z.land_0_r.
Qed.

Lemma shiftr_val B k d r :
  0 <= k -> B = 2 ^ k -> 0 <= d < B ->
  Z.shiftr (val B (d :: r)) k = val B r.
Proof.
  intros Hk -> Hd. cbn [val]. rewrite Z.shiftr_div_pow2 by lia.
  symmetry. apply Z.div_unique with d; lia.
Qed.

Ltac explode l H :=
  repeat (destruct l as [|? l]; cbn [length] in H; try discriminate H).

Ltac digits := unfold digits_below; repeat (constructor; [lia|]); constructor.

Ltac range_hyps H :=
  repeat match type of H with
         | Forall _ (_ :: _) => apply Forall_cons in H; destruct H as [? H]
         end; clear H.

Lemma pairs_ind (P : list Z -> Prop) :
  P [] -> (forall a, P [a]) -> (forall a b r, P r -> P (a :: b :: r)) ->
  forall l, P l.
Proof.
  intros H0 H1 H2. fix IH 1. intros [|a [|b r]]; [exact H0|apply H1|].
  apply H2, IH.
Qed.

Lemma pairs_add_below B ds :
  digits_below B ds -> digits_below (2 * B - 1) (pairs_add ds).
Proof.
  unfold digits_below. induction ds as [|a|a b r IH] using pairs_ind;
    intros H; cbn [pairs_add]; try constructor.
  - inversion H as [|? ? Ha H']; subst. inversion H' as [|? ? Hb _]; subst. lia.
  - apply IH. inversion H as [|? ? _ H']; subst. inversion H'; assumption.
Qed.

Lemma digits_below_mono B B' ds :
  B <= B' -> digits_below B ds -> digits_below B' ds.
Proof.
  intros HB H. eapply Forall_impl; [exact H|]. cbn beta. intros d Hd. lia.
Qed.

Lemma wrap32_small x : 0 <= x < 2 ^ 32 -> wrap32 x = x.
Proof. intros H. unfold wrap32. apply Z.mod_small. exact H. Qed.

(** ** The word-wise bit count *)

Lemma swar_pairs bs :
  length bs = 32%nat -> digits_below 2 bs ->
  wrap32 (val 2 bs - Z.land (Z.shiftr (val 2 bs) 1) 0x55555555)
  = val 4 (pairs_add bs).
Proof.
  intros Hl Hb.
  assert (Hr : 0 <= val 4 (pairs_add bs) < 2 ^ 32).
  { pose proof (val_bound 4 (pairs_add bs)) as Hv.
    explode bs Hl. apply Hv; [lia|].
    apply digits_below_mono with 3; [lia|]. apply (pairs_add_below 2), Hb. }
  rewrite <- (wrap32_small _ Hr). f_equal. clear Hr.
  explode bs Hl. unfold digits_below in Hb. range_hyps Hb.
  rewrite (shiftr_val 2 1) by first [lia | reflexivity].
  change 0x55555555 with
    (mask_val 2 [true;false;true;false;true;false;true;false;
                 true;false;true;false;true;false;true;false;
                 true;false;true;false;true;false;true;false;
                 true;false;true;false;true;false;true]).
  rewrite (land_keep 2 1) by first [lia | reflexivity | digits].
  cbn [val keep pairs_add]. ring.
Qed.

Lemma swar_nibbles es :
  length es = 16%nat -> digits_below 3 es ->
  wrap32 (Z.land (val 4 es) 0x33333333
          + Z.land (Z.shiftr (val 4 es) 2) 0x33333333)
  = val 16 (pairs_add es).
Proof.
  intros Hl Hb.
  assert (Hr : 0 <= val 16 (pairs_add es) < 2 ^ 32).
  { pose proof (val_bound 16 (pairs_add es)) as Hv.
    explode es Hl. apply Hv; [lia|].
    apply digits_below_mono with 5; [lia|]. apply (pairs_add_below 3), Hb. }
  rewrite <- (wrap32_small _ Hr). f_equal. clear Hr.
  explode es Hl. unfold digits_below in Hb. range_hyps Hb.
  rewrite (shiftr_val 4 2) by first [lia | reflexivity].
  change 0x33333333 with
    (mask_val 4 [true;false;true;false;true;false;true;false;
                 true;false;true;false;true;false;true;false]).
  rewrite !(land_keep 4 2) by first [lia | reflexivity | digits].
  cbn [val keep pairs_add]. ring.
Qed.

Lemma swar_bytes fs :
  length fs = 8%nat -> digits_below 5 fs ->
  Z.land (wrap32 (val 16 fs + Z.shiftr (val 16 fs) 4)) 0xF0F0F0F
  = val 256 (pairs_add fs).
Proof.
  intros Hl Hb. explode fs Hl. unfold digits_below in Hb. range_hyps Hb.
  rewrite (shiftr_val 16 4) by first [lia | reflexivity].
  match goal with
  | |- Z.land (wrap32 (val 16 [?f0;?f1;?f2;?f3;?f4;?f5;?f6;?f7] + _)) _ = _ =>
      replace (val 16 [f0;f1;f2;f3;f4;f5;f6;f7] + val 16 [f1;f2;f3;f4;f5;f6;f7])
        with (val 16 [f0+f1;f1+f2;f2+f3;f3+f4;f4+f5;f5+f6;f6+f7;f7])
        by (cbn [val]; ring)
  end.
  rewrite wrap32_small.
  2:{ match goal with |- 0 <= val 16 ?l < _ => apply (val_bound 16 l) end;
      [lia | digits]. }
  change 0xF0F0F0F with
    (mask_val 16 [true;false;true;false;true;false;true;false]).
  rewrite (land_keep 16 4) by first [lia | reflexivity | digits].
  cbn [val keep pairs_add]. ring.
Qed.

Lemma swar_total gs :
  length gs = 4%nat -> digits_below 9 gs ->
  Z.shiftr (wrap32 (val 256 gs * 0x1010101)) 24 = sum_digits gs.
Proof.
  intros Hl Hb. explode gs Hl. unfold digits_below in Hb. range_hyps Hb.
  rename z into g0, z0 into g1, z1 into g2, z2 into g3.
  rewrite Z.shiftr_div_pow2 by lia. unfold wrap32.
  cbn [val sum_digits foldr].
  change (2 ^ 32) with 4294967296. change (2 ^ 24) with 16777216.
  set (lo := g0 + 256 * (g0 + g1) + 65536 * (g0 + g1 + g2)).
  set (hi := g1 + 257 * g2 + 65793 * g3).
  replace ((g0 + 256 * (g1 + 256 * (g2 + 256 * (g3 + 256 * 0)))) * 16843009)
    with (4294967296 * hi + (lo + 16777216 * (g0 + (g1 + (g2 + (g3 + 0))))))
    by (unfold lo, hi; ring).
  rewrite <- (Z.mod_unique _ _ hi (lo + 16777216 * (g0 + (g1 + (g2 + (g3 + 0))))));
    [| left; unfold lo; lia | reflexivity].
  symmetry. apply Z.div_unique with lo; [left; unfold lo; lia | ring].
Qed.

Lemma pairs_add_length ds : length (pairs_add ds) = Nat.div2 (length ds).
Proof.
  induction ds as [|a|a b r IH] using pairs_ind; cbn [pairs_add length Nat.div2];
    congruence.
Qed.

Lemma sum_pairs_add ds :
  Nat.even (length ds) = true -> sum_digits (pairs_add ds) = sum_digits ds.
Proof.
  induction ds as [|a|a b r IH] using pairs_ind; intros He.
  - reflexivity.
  - discriminate He.
  - cbn [pairs_add sum_digits foldr]. fold (sum_digits (pairs_add r)).
    fold (sum_digits r). rewrite IH by exact He. lia.
Qed.

(** The loop body of [count_bits] counts the bits of a 32-bit word given
    by its binary digits. *)
Lemma popcount_word_bits bs :
  length bs = 32%nat -> digits_below 2 bs ->
  popcount_word (val 2 bs) = sum_digits bs.
Proof.
  intros Hl Hb. unfold popcount_word.
  rewrite swar_pairs by assumption.
  assert (Hl1 : length (pairs_add bs) = 16%nat)
    by (rewrite pairs_add_length, Hl; reflexivity).
  assert (Hb1 : digits_below 3 (pairs_add bs)) by apply (pairs_add_below 2), Hb.
  rewrite swar_nibbles by assumption.
  assert (Hl2 : length (pairs_add (pairs_add bs)) = 8%nat)
    by (rewrite pairs_add_length, Hl1; reflexivity).
  assert (Hb2 : digits_below 5 (pairs_add (pairs_add bs)))
    by apply (pairs_add_below 3), Hb1.
  rewrite swar_bytes by assumption.
  assert (Hl3 : length (pairs_add (pairs_add (pairs_add bs))) = 4%nat)
    by (rewrite pairs_add_length, Hl2; reflexivity).
  rewrite swar_total by (try assumption; apply (pairs_add_below 5), Hb2).
  rewrite !sum_pairs_add; [reflexivity| | |].
  - rewrite Hl. reflexivity.
  - rewrite Hl1. reflexivity.
  - rewrite Hl2. reflexivity.
Qed.

(** ** Bytes and words *)

Lemma forall_u8 (P : Z -> bool) :
  forallb P (map Z.of_nat (seq 0 256)) = true ->
  forall x, 0 <= x <= 255 -> P x = true.
Proof.
  intros H x Hx. rewrite forallb_forall in H. apply H.
  apply in_map_iff. exists (Z.to_nat x). split; [lia|].
  apply in_seq. lia.
Qed.

Lemma is_u8_range v : is_u8 v = true <-> 0 <= v <= 255.
Proof. unfold is_u8. rewrite andb_true_iff, !Z.leb_le. reflexivity. Qed.

Lemma is_region_spec size mem :
  is_region size mem = true <->
  Z.of_nat (length mem) = size /\ Forall (fun v => 0 <= v <= 255) mem.
Proof.
  unfold is_region. rewrite andb_true_iff, Z.eqb_eq, forallb_forall.
  rewrite Forall_forall. split; intros [Hl Hb]; split; try exact Hl.
  - intros v Hv. apply is_u8_range, Hb, list_elem_of_In, Hv.
  - intros v Hv. apply is_u8_range, Hb, list_elem_of_In, Hv.
Qed.

Lemma byte_bits_val x : 0 <= x <= 255 -> val 2 (byte_bits x) = x.
Proof.
  intros Hx. apply Z.eqb_eq.
  apply (forall_u8 (fun x => val 2 (byte_bits x) =? x)); [|exact Hx].
  vm_compute. reflexivity.
Qed.

Lemma byte_bits_length x : length (byte_bits x) = 8%nat.
Proof. reflexivity. Qed.

Lemma byte_bits_below x : digits_below 2 (byte_bits x).
Proof.
  unfold digits_below, byte_bits. apply Forall_forall. intros d Hd.
  apply list_elem_of_In, in_map_iff in Hd. destruct Hd as [k [<- _]].
  destruct (Z.testbit x (Z.of_nat k)); cbn; lia.
Qed.

Lemma val_app B xs ys :
  val B (xs ++ ys) = val B xs + B ^ Z.of_nat (length xs) * val B ys.
Proof.
  induction xs as [|x xs IH]; cbn [val app length].
  - rewrite Z.pow_0_r. lia.
  - rewrite IH, Nat2Z.inj_succ, Z.pow_succ_r by lia. ring.
Qed.

Lemma sum_digits_app xs ys :
  sum_digits (xs ++ ys) = sum_digits xs + sum_digits ys.
Proof.
  unfold sum_digits. induction xs as [|x xs IH]; cbn [foldr app]; lia.
Qed.

Lemma bits_of_byte_range x : 0 <= bits_of_byte x <= 8.
Proof.
  unfold bits_of_byte, byte_bits, sum_digits. cbn [seq map foldr].
  repeat match goal with
         | |- context [Z.testbit ?a ?b] => destruct (Z.testbit a b)
         end; cbn; lia.
Qed.

Lemma count_set_bits_range mem :
  0 <= count_set_bits mem <= 8 * Z.of_nat (length mem).
Proof.
  unfold count_set_bits, sum_digits.
  induction mem as [|x mem IH]; cbn [map foldr length]; [lia|].
  pose proof (bits_of_byte_range x). lia.
Qed.

Lemma count_set_bits_app xs ys :
  count_set_bits (xs ++ ys) = count_set_bits xs + count_set_bits ys.
Proof. unfold count_set_bits. rewrite map_app. apply sum_digits_app. Qed.

(** The loop body of [count_bits] on a word loaded from four bytes, in
    either byte order. *)
Lemma popcount_word_bytes (big_endian : bool) x0 x1 x2 x3 :
  0 <= x0 <= 255 -> 0 <= x1 <= 255 -> 0 <= x2 <= 255 -> 0 <= x3 <= 255 ->
  popcount_word (if big_endian
                 then x3 + 2 ^ 8 * x2 + 2 ^ 16 * x1 + 2 ^ 24 * x0
                 else x0 + 2 ^ 8 * x1 + 2 ^ 16 * x2 + 2 ^ 24 * x3)
  = bits_of_byte x0 + bits_of_byte x1 + bits_of_byte x2 + bits_of_byte x3.
Proof.
  intros H0 H1 H2 H3.
  assert (Hw : forall a b c d,
             0 <= a <= 255 -> 0 <= b <= 255 -> 0 <= c <= 255 -> 0 <= d <= 255 ->
             popcount_word (a + 2 ^ 8 * b + 2 ^ 16 * c + 2 ^ 24 * d)
             = bits_of_byte a + bits_of_byte b + bits_of_byte c + bits_of_byte d).
  { intros a b c d Ha Hb Hc Hd.
    replace (a + 2 ^ 8 * b + 2 ^ 16 * c + 2 ^ 24 * d)
      with (val 2 (byte_bits a ++ byte_bits b ++ byte_bits c ++ byte_bits d)).
    - rewrite popcount_word_bits.
      + rewrite !sum_digits_app. unfold bits_of_byte. lia.
      + rewrite !length_app, !byte_bits_length. reflexivity.
      + unfold digits_below. rewrite !Forall_app.
        repeat split; apply byte_bits_below.
    - rewrite !val_app, !byte_bits_length, !byte_bits_val by assumption.
      change (2 ^ Z.of_nat 8) with (2 ^ 8).
      change (2 ^ 16) with (2 ^ 8 * 2 ^ 8).
      change (2 ^ 24) with (2 ^ 8 * (2 ^ 8 * 2 ^ 8)). ring. }
  destruct big_endian; rewrite Hw by assumption; lia.
Qed.

(** ** The loops over the region *)

Lemma classify_loop_spec n : forall pre body post,
  length body = n ->
  classify_loop n (length pre) (pre ++ body ++ post)
  = Some (pre ++ map classify body ++ post).
Proof.
  induction n as [|n IH]; intros pre body post Hl.
  - destruct body; [reflexivity|discriminate Hl].
  - destruct body as [|v body]; [discriminate Hl|].
    cbn [classify_loop]. cbn [app]. rewrite list_lookup_middle by reflexivity.
    rewrite insert_app_r_alt by lia. rewrite Nat.sub_diag. cbn [insert list_insert].
    specialize (IH (pre ++ [classify v]) body post).
    rewrite length_app in IH. cbn [length] in IH.
    replace (S (length pre)) with (length pre + 1)%nat by lia.
    rewrite <- !app_assoc in IH. cbn [app] in IH. rewrite IH by (cbn in Hl; lia).
    reflexivity.
Qed.

Lemma count_loop_spec (big_endian : bool) n : forall ptr ret pre body post,
  length pre = (4 * ptr)%nat -> length body = (4 * n)%nat ->
  Forall (fun v => 0 <= v <= 255) body ->
  0 <= ret < 2 ^ 32 ->
  count_loop big_endian n ptr ret (pre ++ body ++ post)
  = Some (wrap32 (ret + count_set_bits body)).
Proof.
  induction n as [|n IH]; intros ptr ret pre body post Hp Hl Hb Hr.
  - destruct body; [|discriminate Hl]. cbn [count_loop].
    unfold count_set_bits. cbn. rewrite Z.add_0_r, wrap32_small; auto.
  - destruct body as [|x0 [|x1 [|x2 [|x3 body]]]];
      try (exfalso; cbn [length] in Hl; lia).
    cbn [count_loop app]. unfold load_u32.
    rewrite <- Hp.
    rewrite (list_lookup_middle pre _ x0 (length pre)) by reflexivity.
    rewrite (lookup_app_r pre), (lookup_app_r pre), (lookup_app_r pre) by lia.
    replace (length pre + 1 - length pre)%nat with 1%nat by lia.
    replace (length pre + 2 - length pre)%nat with 2%nat by lia.
    replace (length pre + 3 - length pre)%nat with 3%nat by lia.
    cbn [app lookup list_lookup].
    apply Forall_cons in Hb as [H0 Hb]. apply Forall_cons in Hb as [H1 Hb].
    apply Forall_cons in Hb as [H2 Hb]. apply Forall_cons in Hb as [H3 Hb].
    rewrite popcount_word_bytes by assumption.
    specialize (IH (S ptr) (wrap32 (ret + (bits_of_byte x0 + bits_of_byte x1
                                            + bits_of_byte x2 + bits_of_byte x3)))
                   (pre ++ [x0; x1; x2; x3]) body post).
    rewrite <- !app_assoc in IH. cbn [app] in IH. rewrite IH; clear IH.
    + f_equal. unfold wrap32. rewrite Zplus_mod_idemp_l. f_equal.
      change (x0 :: x1 :: x2 :: x3 :: body) with ([x0; x1; x2; x3] ++ body).
      rewrite count_set_bits_app. unfold count_set_bits at 2, sum_digits.
      cbn [map foldr]. lia.
    + rewrite length_app. cbn [length]. lia.
    + cbn [length] in Hl. lia.
    + exact Hb.
    + unfold wrap32. apply Z.mod_pos_bound. lia.
Qed.

(** ** Classification *)

Ltac classify_cases :=
  unfold classify;
  change (wrap8 (Z.shiftl 1 2)) with 4; change (wrap8 (Z.shiftl 1 3)) with 8;
  change (wrap8 (Z.shiftl 1 4)) with 16; change (wrap8 (Z.shiftl 1 5)) with 32;
  change (wrap8 (Z.shiftl 1 6)) with 64; change (wrap8 (Z.shiftl 1 7)) with 128;
  repeat match goal with
         | |- context [if ?b then _ else _] =>
             let E := fresh "E" in destruct b eqn:E
         end;
  rewrite ?andb_true_iff, ?andb_false_iff, ?Z.eqb_eq, ?Z.eqb_neq,
    ?Z.leb_le, ?Z.leb_gt in *;
  try lia.

Lemma classify_u8 v : 0 <= v <= 255 -> 0 <= classify v <= 255.
Proof. intros Hv. classify_cases. Qed.

Lemma classify_zero v : 0 <= v <= 255 -> (classify v = 0 <-> v = 0).
Proof. intros Hv. classify_cases. Qed.

Lemma classify_mono v1 v2 :
  0 <= v1 <= 255 -> 0 <= v2 <= 255 -> v1 <= v2 -> classify v1 <= classify v2.
Proof. intros H1 H2 Hle. classify_cases. Qed.

Lemma classify_next_bucket v :
  3 <= v <= 31 -> classify (classify v) = 2 * classify v.
Proof.
  intros Hv. apply Z.eqb_eq.
  assert (H : forallb (fun v => classify (classify v) =? 2 * classify v)
                      (map Z.of_nat (seq 3 29)) = true)
    by (vm_compute; reflexivity).
  rewrite forallb_forall in H. apply H.
  apply in_map_iff. exists (Z.to_nat v). split; [lia|].
  apply in_seq. lia.
Qed.

Lemma classify_twice v :
  0 <= v <= 255 -> (classify (classify v) = classify v <-> v <= 2 \/ 32 <= v).
Proof.
  intros Hv.
  assert (H : v <= 2 \/ v = 3 \/ 4 <= v <= 7 \/ 8 <= v <= 15 \/ 16 <= v <= 31
              \/ 32 <= v <= 127 \/ 128 <= v) by lia.
  assert (E4 : classify 4 = 8) by reflexivity.
  assert (E8 : classify 8 = 16) by reflexivity.
  assert (E16 : classify 16 = 32) by reflexivity.
  assert (E32 : classify 32 = 64) by reflexivity.
  assert (E64 : classify 64 = 64) by reflexivity.
  assert (E128 : classify 128 = 128) by reflexivity.
  destruct H as [H|[H|[H|[H|[H|[H|H]]]]]].
  - replace (classify v) with v by classify_cases. split; [lia|]. intros _.
    classify_cases.
  - subst v. change (classify 3) with 4. rewrite E4. lia.
  - replace (classify v) with 8 by classify_cases. rewrite E8. lia.
  - replace (classify v) with 16 by classify_cases. rewrite E16. lia.
  - replace (classify v) with 32 by classify_cases. rewrite E32. lia.
  - replace (classify v) with 64 by classify_cases. rewrite E64. lia.
  - replace (classify v) with 128 by classify_cases. rewrite E128. lia.
Qed.

Lemma classify_counts_spec MAP_SIZE mem :
  is_region MAP_SIZE mem = true -> MAP_SIZE < 2 ^ 32 ->
  classify_counts MAP_SIZE mem = Some (map classify mem).
Proof.
  intros Hr Hs. apply is_region_spec in Hr as [Hl _].
  unfold classify_counts. rewrite wrap32_small by lia.
  pose proof (classify_loop_spec (Z.to_nat MAP_SIZE) [] mem []) as H.
  cbn [length app] in H. rewrite !app_nil_r in H. apply H. lia.
Qed.

Lemma map_classify_region size mem :
  is_region size mem = true -> is_region size (map classify mem) = true.
Proof.
  rewrite !is_region_spec. intros [Hl Hb]. split.
  - rewrite length_map. exact Hl.
  - apply Forall_fmap. eapply Forall_impl; [exact Hb|].
    intros v Hv. apply classify_u8, Hv.
Qed.

(** ** Counting *)

Lemma count_bits_spec MAP_SIZE (big_endian : bool) mem :
  is_region MAP_SIZE mem = true -> MAP_SIZE mod 4 = 0 -> MAP_SIZE < 2 ^ 32 ->
  count_bits MAP_SIZE big_endian mem = Some (wrap32 (count_set_bits mem)).
Proof.
  intros Hr Hm Hs. apply is_region_spec in Hr as [Hl Hb].
  unfold count_bits. rewrite Z.shiftr_div_pow2 by lia.
  change (2 ^ 2) with 4.
  assert (Hq : MAP_SIZE = 4 * (MAP_SIZE / 4))
    by (rewrite (Z.div_mod MAP_SIZE 4) at 1 by lia; lia).
  rewrite wrap32_small by lia.
  pose proof (count_loop_spec big_endian (Z.to_nat (MAP_SIZE / 4)) 0 0 [] mem [])
    as H.
  cbn [app] in H. rewrite app_nil_r in H. rewrite H; auto; lia.
Qed.

Lemma count_bits_exact MAP_SIZE (big_endian : bool) mem :
  is_region MAP_SIZE mem = true -> MAP_SIZE mod 4 = 0 -> 8 * MAP_SIZE < 2 ^ 32 ->
  count_bits MAP_SIZE big_endian mem = Some (count_set_bits mem).
Proof.
  intros Hr Hm Hs. rewrite count_bits_spec by (auto; lia).
  apply is_region_spec in Hr as [Hl _].
  pose proof (count_set_bits_range mem). rewrite wrap32_small by lia.
  reflexivity.
Qed.

Lemma count_set_bits_zeros n : count_set_bits (replicate n 0) = 0.
Proof.
  unfold count_set_bits, sum_digits.
  induction n as [|n IH]; cbn [replicate map foldr]; [reflexivity|].
  rewrite IH. reflexivity.
Qed.

Lemma count_set_bits_single n (i : nat) v :
  (i < n)%nat -> count_set_bits (<[i := v]> (replicate n 0)) = bits_of_byte v.
Proof.
  intros Hi. rewrite insert_replicate_lt by exact Hi.
  rewrite count_set_bits_app.
  change (v :: replicate (n - S i) 0) with ([v] ++ replicate (n - S i) 0).
  rewrite count_set_bits_app, !count_set_bits_zeros.
  unfold count_set_bits, sum_digits. cbn [map foldr]. lia.
Qed.

Lemma count_set_bits_pos mem :
  Forall (fun v => 0 <= v <= 255) mem ->
  (0 < count_set_bits mem <-> exists (i : nat) v, mem !! i = Some v /\ v <> 0).
Proof.
  intros Hb. induction Hb as [|x mem Hx Hb IH].
  - split; [unfold count_set_bits; cbn; lia|]. intros (i & v & H & _).
    discriminate H.
  - change (x :: mem) with ([x] ++ mem). rewrite count_set_bits_app.
    assert (Ex : count_set_bits [x] = bits_of_byte x)
      by (unfold count_set_bits, sum_digits; cbn [map foldr]; lia).
    rewrite Ex. pose proof (bits_of_byte_range x) as Rx.
    pose proof (count_set_bits_range mem) as Rm.
    assert (Hz : bits_of_byte x = 0 <-> x = 0).
    { pose proof (forall_u8 (fun x => Bool.eqb (bits_of_byte x =? 0) (x =? 0))) as F.
      specialize (F ltac:(vm_compute; reflexivity) x Hx). cbn beta in F.
      apply Bool.eqb_prop in F.
      destruct (Z.eqb_spec (bits_of_byte x) 0), (Z.eqb_spec x 0);
        try discriminate F; tauto. }
    split.
    + intros Hpos. destruct (Z.eq_dec x 0) as [->|Hne].
      * destruct IH as [IH _]. destruct IH as (i & v & Hi & Hv); [lia|].
        exists (S i), v. auto.
      * exists 0%nat, x. auto.
    + intros (i & v & Hi & Hv). destruct i as [|i].
      * cbn in Hi. injection Hi as <-. lia.
      * cbn in Hi. destruct IH as [_ IH]. specialize (IH ltac:(eauto)). lia.
Qed.

(** ** The state-and-exit monad *)

Lemma add_log_nil s : add_log [] s = s.
Proof. destruct s. unfold add_log. cbn. rewrite app_nil_r. reflexivity. Qed.

Lemma add_log_app es1 es2 s : add_log es2 (add_log es1 s) = add_log (es1 ++ es2) s.
Proof. unfold add_log. cbn. rewrite app_assoc. reflexivity. Qed.

Lemma bind_eq {A B} (m : M A) (f : A -> M B) s :
  (m ≫= f) s = bind_result (m s) f.
Proof. reflexivity. Qed.

Lemma with_trace_bits_some {A} (f : list Z -> option A) s mem a :
  shm s = Some mem -> f mem = Some a -> with_trace_bits f s = Continue a s.
Proof.
  intros Hs Hf. unfold with_trace_bits. rewrite Hs. cbn. rewrite Hf. reflexivity.
Qed.

Lemma show_loop_spec n : forall pre body s,
  length body = n -> Z.of_nat (length pre + n) < 2 ^ 32 ->
  shm s = Some (pre ++ body) ->
  show_loop n (Z.of_nat (length pre)) s
  = Continue tt
      (add_log (map tuple_event
                  (filter (fun p => snd p <> 0)
                     (imap (fun j v => ((length pre + j)%nat, v)) body))) s).
Proof.
  induction n as [|n IH]; intros pre body s Hl Hn Hs.
  - destruct body; [|discriminate Hl]. cbn. rewrite add_log_nil. reflexivity.
  - destruct body as [|v body]; [discriminate Hl|].
    cbn [show_loop]. rewrite bind_eq.
    rewrite (with_trace_bits_some _ s (pre ++ v :: body) v Hs).
    2:{ rewrite Nat2Z.id. apply list_lookup_middle. reflexivity. }
    cbn [bind_result]. rewrite bind_eq.
    rewrite wrap32_small by lia.
    replace (Z.of_nat (length pre) + 1) with (Z.of_nat (length (pre ++ [v])))
      by (rewrite length_app; cbn [length]; lia).
    rewrite imap_cons, filter_cons. cbn [snd].
    assert (Hext : imap ((fun (j : nat) (v0 : Z) => ((length pre + j)%nat, v0)) ∘ S) body
                   = imap (fun j v0 => ((length (pre ++ [v]) + j)%nat, v0)) body).
    { apply imap_ext. intros j x _. cbn. rewrite length_app. cbn [length].
      f_equal. lia. }
    rewrite Hext.
    destruct (Z.eqb_spec v 0) as [->|Hv]; cbn [negb when].
    + change (@mret M _ unit tt s) with (Continue tt s). cbn [bind_result].
      rewrite (IH (pre ++ [0]) body s); [|cbn in Hl; lia| |].
      * destruct (decide (0 <> 0)) as [Hd|Hd]; [congruence|]. reflexivity.
      * rewrite length_app. cbn [length] in *. lia.
      * rewrite <- app_assoc. exact Hs.
    + change (SAYF tuple_fmt [PInt (Z.of_nat (length pre)); PInt v] s)
        with (Continue tt (add_log [tuple_event (length pre, v)] s)).
      cbn [bind_result].
      rewrite (IH (pre ++ [v]) body); [|cbn in Hl; lia| |].
      * case_decide; [|contradiction].
        rewrite add_log_app. cbn [map app]. rewrite Nat.add_0_r. reflexivity.
      * rewrite length_app. cbn [length] in *. lia.
      * rewrite <- app_assoc. exact Hs.
Qed.

Lemma show_tuples_spec MAP_SIZE s raw :
  shm s = Some raw -> is_region MAP_SIZE raw = true -> MAP_SIZE < 2 ^ 32 ->
  show_tuples MAP_SIZE s
  = Continue tt (add_log (map tuple_event (touched (map classify raw)))
                         (set_shm (Some (map classify raw)) s)).
Proof.
  intros Hs Hr Hm. unfold show_tuples. rewrite bind_eq.
  rewrite (with_trace_bits_some _ s raw (map classify raw) Hs)
    by (apply classify_counts_spec; assumption).
  cbn [bind_result]. rewrite bind_eq.
  change (modify (set_shm (Some (map classify raw))) s)
    with (Continue tt (set_shm (Some (map classify raw)) s)).
  cbn [bind_result].
  apply is_region_spec in Hr as [Hl _].
  rewrite wrap32_small by lia.
  pose proof (show_loop_spec (Z.to_nat MAP_SIZE) [] (map classify raw)
                (set_shm (Some (map classify raw)) s)) as H.
  cbn [length app Nat.add] in H. change (Z.of_nat 0) with 0 in H.
  rewrite H; [reflexivity| | |reflexivity].
  - rewrite length_map. lia.
  - lia.
Qed.

(** ** Report lines in a log *)

Lemma string_length_app (a b : string) :
  String.length (a +:+ b) = (String.length a + String.length b)%nat.
Proof.
  induction a as [|c a IH]; simpl; [reflexivity|]. f_equal. exact IH.
Qed.

Lemma tuple_lines_app es1 es2 :
  tuple_lines (es1 ++ es2) = tuple_lines es1 ++ tuple_lines es2.
Proof. apply List.filter_app. Qed.

Lemma tuple_lines_tuple_events l : tuple_lines (map tuple_event l) = map tuple_event l.
Proof.
  induction l as [|p l IH]; [reflexivity|].
  cbn [map tuple_lines List.filter is_tuple_event tuple_event].
  rewrite String.eqb_refl. f_equal. exact IH.
Qed.

Lemma banner_not_tuple VERSION cCYA cBRI cRST BD BT :
  is_tuple_event (Say (banner_fmt VERSION cCYA cBRI cRST BD BT) []) = false.
Proof.
  cbn [is_tuple_event]. apply String.eqb_neq. intros H.
  apply (f_equal String.length) in H. unfold banner_fmt, tuple_fmt, nl in H.
  rewrite !string_length_app in H. simpl in H. lia.
Qed.

Lemma tuples_recorded_not_tuple cBRI cRST :
  is_tuple_event (Say (tuples_recorded_fmt cBRI cRST) []) = false.
Proof.
  cbn [is_tuple_event]. apply String.eqb_neq. intros H.
  apply (f_equal String.length) in H. unfold tuples_recorded_fmt, tuple_fmt, nl in H.
  rewrite !string_length_app in H. simpl in H. lia.
Qed.

Lemma not_tuple_singleton e : is_tuple_event e = false -> tuple_lines [e] = [].
Proof. intros H. cbn. rewrite H. reflexivity. Qed.


Ltac unfold_tool :=
  cbv [run main mbind M_bind mret M_ret gets modify halt when SAYF FATAL PFATAL
       exit remove_shm usage emit setup_shm run_target run_target_parent
       run_target_child sys_pipe sys_fork sys_close sys_write sys_read
       sys_dup2 sys_open sys_execvp with_trace_bits attached
       w_argv w_quiet w_sink w_shmget w_shmat w_pipe_st w_pipe_ctl w_fork
       w_write w_read w_bitmap w_getrlimit w_open w_dup2 w_execvp];
  cbv beta zeta iota.

Ltac simp_ctl :=
  cbn [bind_result deref_result negb andb orb fst snd option_fmap option_map
       option_bind fmap].

Ltac proj_eq p S :=
  let v := eval cbn [forksrv_pid child_pid trace_bits shm_id sink_output
                     be_quiet shm at_exit n_read n_dup2 log set_forksrv_pid
                     set_child_pid set_trace_bits set_shm_id set_sink_output
                     set_be_quiet set_shm set_at_exit set_n_read set_n_dup2
                     add_log init_state] in (p S) in
  tryif constr_eq v (p S) then fail
  else (let H := fresh "HP" in
        assert (H : p S = v) by reflexivity;
        rewrite H; clear H).

Ltac norm_proj :=
  repeat match goal with
         | |- context [at_exit ?S] => proj_eq (at_exit) S
         | |- context [shm_id ?S] => proj_eq (shm_id) S
         | |- context [be_quiet ?S] => proj_eq (be_quiet) S
         | |- context [sink_output ?S] => proj_eq (sink_output) S
         | |- context [forksrv_pid ?S] => proj_eq (forksrv_pid) S
         | |- context [child_pid ?S] => proj_eq (child_pid) S
         | |- context [trace_bits ?S] => proj_eq (trace_bits) S
         | |- context [n_read ?S] => proj_eq (n_read) S
         | |- context [n_dup2 ?S] => proj_eq (n_dup2) S
         | |- context [shm ?S] => proj_eq (shm) S
         | |- context [log ?S] => proj_eq (log) S
         end.

Ltac simp_state :=
  simp_ctl; norm_proj;
  change (1 =? 0) with false; change (0 =? 0) with true;
  simp_ctl.

Ltac head_of t :=
  lazymatch t with
  | bind_result ?r _ => head_of r
  | _ => t
  end.

Ltac split_on b :=
  lazymatch b with
  | negb ?c => split_on c
  | andb ?c _ => split_on c
  | orb ?c _ => split_on c
  | Z.ltb ?x ?y => destruct (Z.ltb_spec x y)
  | Z.leb ?x ?y => destruct (Z.leb_spec x y)
  | Z.eqb ?x ?y => destruct (Z.eqb_spec x y)
  | _ => let E := fresh "E" in destruct b eqn:E
  end;
  try (exfalso; lia).

(** One step of the evaluation of a run: the computation at the head is
    reduced, or the condition it waits for is split. *)
Ltac step :=
  lazymatch goal with
  | |- ?P ?t =>
      let h := head_of t in
      lazymatch h with
      | (if ?b then _ else _) _ => split_on b; simp_state
      | deref_result ?o _ =>
          lazymatch o with
          | context [if ?b then _ else _] => split_on b; simp_state
          | count_bits _ _ _ =>
              rewrite count_bits_exact by (first [assumption | lia]);
              simp_state
          end
      | show_tuples ?m ?s =>
          lazymatch goal with
          | Hreg : is_region m ?raw = true |- _ =>
              rewrite (show_tuples_spec m s raw eq_refl Hreg) by lia
          end;
          simp_state
      | Continue _ _ => progress simp_state
      | Halt _ _ => progress simp_state
      | (fun _ => _) _ => progress (cbv beta; simp_state)
      end
  end.

Lemma fixed_not_tuple :
  String.eqb usage_fmt tuple_fmt = false /\
  String.eqb output_begins_fmt tuple_fmt = false /\
  String.eqb output_ends_fmt tuple_fmt = false /\
  String.eqb ("+++ Killed by signal %u +++" +:+ nl) tuple_fmt = false.
Proof. repeat split; vm_compute; reflexivity. Qed.

Lemma banner_neq VERSION cCYA cBRI cRST BD BT :
  String.eqb (banner_fmt VERSION cCYA cBRI cRST BD BT) tuple_fmt = false.
Proof. apply (banner_not_tuple VERSION cCYA cBRI cRST BD BT). Qed.

Lemma tuples_recorded_neq cBRI cRST :
  String.eqb (tuples_recorded_fmt cBRI cRST) tuple_fmt = false.
Proof. apply (tuples_recorded_not_tuple cBRI cRST). Qed.

Ltac solve_lines :=
  rewrite ?tuple_lines_app, ?tuple_lines_tuple_events;
  cbn [tuple_lines List.filter is_tuple_event];
  destruct fixed_not_tuple as (Fu & Fb & Fe & Fk);
  rewrite ?Fu, ?Fb, ?Fe, ?Fk, ?banner_neq, ?tuples_recorded_neq;
  cbn [app]; rewrite ?app_nil_r; reflexivity.

Ltac outcome_leaf :=
  unfold outcome_spec;
  cbn [exit_status final_state];
  (split;
   [ split; intros HH; first [ reflexivity | discriminate HH | congruence ]
   | norm_proj; solve_lines ]).



(** ** The run, path by path *)

Lemma run_outcome MAP_SIZE FORKSRV_FD SHM_ENV_VAR VERSION cCYA cBRI cRST
    BUILD_DATE BUILD_TIME fatal_status (big_endian : bool) w :
  is_region MAP_SIZE (w_bitmap w) = true -> MAP_SIZE mod 4 = 0 ->
  8 * MAP_SIZE < 2 ^ 32 -> fatal_status <> 0 ->
  outcome_spec (success w)
    (map tuple_event (touched (map classify (w_bitmap w))))
    (run MAP_SIZE FORKSRV_FD SHM_ENV_VAR VERSION cCYA cBRI cRST BUILD_DATE
         BUILD_TIME fatal_status big_endian w).
Proof.
  intros Hreg Hmod Hsz Hfs.
  destruct w as [argv quiet sink shmget shmat [r1 [st0 st1]] [r2 [ct0 ct1]]
                 fork write read bitmap getrl open dup2 execvp].
  cbn [w_bitmap] in Hreg.
  unfold success, reaches_handshake, handshake_ok, region_mapped.
  unfold_tool.
  destruct quiet, sink; simp_state; (repeat step); outcome_leaf.
Qed.


(** * The claims *)

(** ** Classification *)

(** C1: the classification rewrites a byte as the documented table says
    (0, 1 and 2 unchanged, 3 to 4, 4..7 to 8, 8..15 to 16, 16..31 to 32,
    32..127 to 64, 128..255 to 128), and [classify_counts] applies it to
    each of the [MAP_SIZE] entries of the bitmap on its own. *)
Theorem classify_counts_table MAP_SIZE mem :
  is_region MAP_SIZE mem = true -> MAP_SIZE < 2 ^ 32 ->
  (forall v,
      (0 <= v <= 2 -> classify v = v) /\
      (v = 3 -> classify v = 4) /\
      (4 <= v <= 7 -> classify v = 8) /\
      (8 <= v <= 15 -> classify v = 16) /\
      (16 <= v <= 31 -> classify v = 32) /\
      (32 <= v <= 127 -> classify v = 64) /\
      (128 <= v <= 255 -> classify v = 128)) /\
  (exists mem',
      classify_counts MAP_SIZE mem = Some mem' /\
      length mem' = length mem /\
      forall i : nat, mem' !! i = classify <$> mem !! i).
Proof.
  intros Hr Hs. split.
  - intros v. repeat split; intros Hv; classify_cases.
  - exists (map classify mem). split; [|split].
    + apply classify_counts_spec; assumption.
    + apply length_map.
    + intros i. apply list_lookup_fmap.
Qed.

Lemma classify_counts_table_witness :
  let mem := <[10%nat := 1]> (<[20%nat := 5]> (replicate (Z.to_nat 65536) 0)) in
  (forall v,
      (0 <= v <= 2 -> classify v = v) /\
      (v = 3 -> classify v = 4) /\
      (4 <= v <= 7 -> classify v = 8) /\
      (8 <= v <= 15 -> classify v = 16) /\
      (16 <= v <= 31 -> classify v = 32) /\
      (32 <= v <= 127 -> classify v = 64) /\
      (128 <= v <= 255 -> classify v = 128)) /\
  (exists mem',
      classify_counts 65536 mem = Some mem' /\
      length mem' = length mem /\
      forall i : nat, mem' !! i = classify <$> mem !! i).
Proof.
  intros mem. apply (classify_counts_table 65536 mem);
    [vm_compute; reflexivity | lia].
Defined.

(** C4, as the code has it: the classification is monotonically
    non-decreasing on [0,255]; applying it twice gives the same as applying
    it once exactly for the values 0, 1, 2 and 32..255; for the values
    3..31 the second application moves the value to the next bucket, which
    is twice the first. *)
Theorem classify_monotone_fixpoints v1 v2 :
  0 <= v1 <= 255 -> 0 <= v2 <= 255 ->
  (v1 <= v2 -> classify v1 <= classify v2) /\
  (classify (classify v1) = classify v1 <-> v1 <= 2 \/ 32 <= v1) /\
  (3 <= v1 <= 31 ->
   classify (classify v1) = 2 * classify v1 /\
   In (classify v1) [4; 8; 16; 32]).
Proof.
  intros H1 H2. split; [|split].
  - apply classify_mono; assumption.
  - apply classify_twice; assumption.
  - intros H3. split; [apply classify_next_bucket, H3|].
    clear H2 v2. cbn [In]. classify_cases.
Qed.

Lemma classify_monotone_fixpoints_witness :
  (5 <= 40 -> classify 5 <= classify 40) /\
  (classify (classify 5) = classify 5 <-> 5 <= 2 \/ 32 <= 5) /\
  (3 <= 5 <= 31 ->
   classify (classify 5) = 2 * classify 5 /\
   In (classify 5) [4; 8; 16; 32]).
Proof. apply (classify_monotone_fixpoints 5 40); lia. Defined.

(** C4 as stated fails: 3 is in [0,255] and classifying it twice gives 8,
    not 4. *)
Lemma classify_not_idempotent :
  0 <= 3 <= 255 /\ classify 3 = 4 /\ classify (classify 3) = 8 /\
  classify (classify 3) <> classify 3.
Proof. repeat split; try lia; try reflexivity. vm_compute. discriminate. Qed.

(** ** Counting *)

(** C3: for every bitmap of [MAP_SIZE] bytes, [MAP_SIZE] a multiple of 4,
    the word-wise count of [count_bits] is the per-bit reference count over
    all the bytes, reduced to 32 bits as the [u32] accumulator is; it is
    that count itself as soon as the [8 * MAP_SIZE] bits a bitmap can hold
    fit the accumulator. *)
Theorem count_bits_counts_all_bits MAP_SIZE (big_endian : bool) mem :
  is_region MAP_SIZE mem = true -> MAP_SIZE mod 4 = 0 -> MAP_SIZE < 2 ^ 32 ->
  count_bits MAP_SIZE big_endian mem = Some (wrap32 (count_set_bits mem)) /\
  (8 * MAP_SIZE < 2 ^ 32 ->
   count_bits MAP_SIZE big_endian mem = Some (count_set_bits mem)).
Proof.
  intros Hr Hm Hs. split.
  - apply count_bits_spec; assumption.
  - intros H8. apply count_bits_exact; assumption.
Qed.

Lemma count_bits_counts_all_bits_witness :
  let mem := <[10%nat := 1]> (<[20%nat := 5]> (replicate (Z.to_nat 65536) 0)) in
  count_bits 65536 false mem = Some (wrap32 (count_set_bits mem)) /\
  (8 * 65536 < 2 ^ 32 -> count_bits 65536 false mem = Some (count_set_bits mem)).
Proof.
  intros mem. apply (count_bits_counts_all_bits 65536 false mem);
    [vm_compute; reflexivity | reflexivity | lia].
Defined.

Lemma bits_of_byte_one v :
  0 <= v <= 255 ->
  (bits_of_byte v = 1 <-> In v [1; 2; 4; 8; 16; 32; 64; 128]).
Proof.
  intros Hv.
  pose proof (forall_u8
    (fun x => Bool.eqb (bits_of_byte x =? 1)
                (existsb (Z.eqb x) [1; 2; 4; 8; 16; 32; 64; 128]))) as F.
  specialize (F ltac:(vm_compute; reflexivity) v Hv). cbn beta in F.
  apply Bool.eqb_prop in F. rewrite <- Z.eqb_eq, F, existsb_exists.
  split.
  - intros (x & Hin & Hx). apply Z.eqb_eq in Hx. subst x. exact Hin.
  - intros Hin. exists v. split; [exact Hin|apply Z.eqb_refl].
Qed.

Lemma bits_of_byte_pos v : 1 <= v <= 255 -> 1 <= bits_of_byte v.
Proof.
  intros Hv.
  pose proof (forall_u8 (fun x => (x =? 0) || (1 <=? bits_of_byte x))) as F.
  specialize (F ltac:(vm_compute; reflexivity) v ltac:(lia)). cbn beta in F.
  apply orb_true_iff in F as [F|F]; [apply Z.eqb_eq in F; lia|].
  apply Z.leb_le, F.
Qed.

Lemma is_region_single MAP_SIZE (i : nat) v :
  0 <= MAP_SIZE -> 0 <= v <= 255 ->
  is_region MAP_SIZE (<[i := v]> (replicate (Z.to_nat MAP_SIZE) 0)) = true.
Proof.
  intros Hm Hv. apply is_region_spec. split.
  - rewrite length_insert, length_replicate. lia.
  - apply Forall_insert; [|exact Hv]. apply Forall_replicate. lia.
Qed.

(** C2, as the code has it: over the all-zero bitmap of [MAP_SIZE] bytes
    [count_bits] returns 0; over a bitmap with exactly one byte [v] that is
    not zero (1 to 255, anywhere) it returns the number of bits set in [v],
    which is between 1 and 8 and is 1 exactly when [v] is a power of two. *)
Theorem count_bits_single_byte MAP_SIZE (big_endian : bool) (i : nat) v :
  0 <= MAP_SIZE -> MAP_SIZE mod 4 = 0 -> 8 * MAP_SIZE < 2 ^ 32 ->
  (i < Z.to_nat MAP_SIZE)%nat -> 1 <= v <= 255 ->
  count_bits MAP_SIZE big_endian (replicate (Z.to_nat MAP_SIZE) 0) = Some 0 /\
  count_bits MAP_SIZE big_endian (<[i := v]> (replicate (Z.to_nat MAP_SIZE) 0))
  = Some (bits_of_byte v) /\
  1 <= bits_of_byte v <= 8 /\
  (bits_of_byte v = 1 <-> In v [1; 2; 4; 8; 16; 32; 64; 128]).
Proof.
  intros Hm Hmod Hs Hi Hv. repeat split.
  - rewrite count_bits_exact; try assumption.
    + rewrite count_set_bits_zeros. reflexivity.
    + apply is_region_spec. split; [rewrite length_replicate; lia|].
      apply Forall_replicate. lia.
  - rewrite count_bits_exact; try assumption.
    + rewrite count_set_bits_single by exact Hi. reflexivity.
    + apply is_region_single; lia.
  - apply bits_of_byte_pos, Hv.
  - apply bits_of_byte_range.
  - apply bits_of_byte_one. lia.
  - apply bits_of_byte_one. lia.
Qed.

Lemma count_bits_single_byte_witness :
  count_bits 65536 false (replicate (Z.to_nat 65536) 0) = Some 0 /\
  count_bits 65536 false (<[20%nat := 5]> (replicate (Z.to_nat 65536) 0))
  = Some (bits_of_byte 5) /\
  1 <= bits_of_byte 5 <= 8 /\
  (bits_of_byte 5 = 1 <-> In 5 [1; 2; 4; 8; 16; 32; 64; 128]).
Proof.
  apply (count_bits_single_byte 65536 false 20 5);
    [lia | reflexivity | lia | lia | lia].
Defined.

(** C2 as stated fails: the bitmap of 65536 bytes whose only byte that is
    not zero is a 3, at index 0, has exactly one such byte, and [count_bits]
    returns 2 for it, in either byte order. *)
Lemma count_bits_single_byte_not_one :
  let mem := <[0%nat := 3]> (replicate (Z.to_nat 65536) 0) in
  is_region 65536 mem = true /\
  mem !! 0%nat = Some 3 /\
  (forall j : nat, j <> 0%nat -> Z.of_nat j < 65536 -> mem !! j = Some 0) /\
  count_bits 65536 false mem = Some 2 /\
  count_bits 65536 true mem = Some 2 /\
  Some 2 <> Some 1.
Proof.
  intros mem.
  assert (Hr : is_region 65536 mem = true) by (apply is_region_single; lia).
  assert (Hc : count_set_bits mem = 2).
  { unfold mem. rewrite count_set_bits_single by lia. reflexivity. }
  split; [exact Hr|]. split; [|split; [|split; [|split]]].
  - unfold mem. apply list_lookup_insert_eq. rewrite length_replicate. lia.
  - intros j Hj Hlt. unfold mem. rewrite list_lookup_insert_ne by congruence.
    apply lookup_replicate_2. lia.
  - rewrite count_bits_exact by (first [exact Hr | reflexivity | lia]).
    rewrite Hc. reflexivity.
  - rewrite count_bits_exact by (first [exact Hr | reflexivity | lia]).
    rewrite Hc. reflexivity.
  - discriminate.
Qed.

(** ** The tuple report *)

Lemma string_app_assoc (a b c : string) : (a +:+ b) +:+ c = a +:+ (b +:+ c).
Proof.
  induction a as [|x a IH]; [reflexivity|].
  change (String x ((a +:+ b) +:+ c) = String x (a +:+ (b +:+ c))).
  rewrite IH. reflexivity.
Qed.

Lemma render_tuple i v :
  0 <= i < 2 ^ 32 -> 0 <= v < 2 ^ 32 ->
  render tuple_fmt [PInt i; PInt v] = Some (report_line i v).
Proof.
  intros Hi Hv.
  change (render tuple_fmt [PInt i; PInt v])
    with (Some (pad true 5 (dec (wrap32 i)) +:+ "/"
                +:+ pad false 0 (dec (wrap32 v)) +:+ nl)).
  rewrite !wrap32_small by assumption. unfold report_line, pad.
  cbn [Nat.sub fill]. rewrite string_app_assoc. reflexivity.
Qed.

Lemma all_from_spec (P : Z -> bool) n : forall lo,
  all_from P lo n = true ->
  forall x, lo <= x < lo + Z.of_nat n -> P x = true.
Proof.
  induction n as [|n IH]; intros lo H x Hx; [lia|].
  cbn [all_from] in H. apply andb_true_iff in H as [H0 H1].
  destruct (Z.eq_dec x lo) as [->|Hne]; [exact H0|].
  apply (IH (lo + 1) H1). lia.
Qed.

Lemma index_field_width i :
  0 <= i < 100000 ->
  String.length (fill "0" (5 - String.length (dec i)) +:+ dec i) = 5%nat.
Proof.
  intros Hi. apply Nat.eqb_eq.
  apply (all_from_spec
           (fun i => Nat.eqb (String.length
                                (fill "0" (5 - String.length (dec i)) +:+ dec i)) 5)
           (Z.to_nat 100000) 0);
    [vm_compute; reflexivity | lia].
Qed.

Lemma touched_lookup mem (i : nat) v :
  (i, v) ∈ touched mem <-> mem !! i = Some v /\ v <> 0.
Proof.
  unfold touched. rewrite list_elem_of_filter, elem_of_lookup_imap. cbn [snd].
  split.
  - intros (Hv & j & y & E & Hj). injection E as -> ->. auto.
  - intros (Hi & Hv). split; [exact Hv|]. exists i, v. auto.
Qed.

Lemma touched_from_sorted mem : forall k (j1 j2 : nat) p q,
  (filter (fun p : nat * Z => snd p <> 0)
     (imap (fun j v => ((k + j)%nat, v)) mem) !! j1 = Some p ->
   (k <= fst p)%nat) /\
  (filter (fun p : nat * Z => snd p <> 0)
     (imap (fun j v => ((k + j)%nat, v)) mem) !! j1 = Some p ->
   filter (fun p : nat * Z => snd p <> 0)
     (imap (fun j v => ((k + j)%nat, v)) mem) !! j2 = Some q ->
   (j1 < j2)%nat -> (fst p < fst q)%nat).
Proof.
  induction mem as [|x mem IH]; intros k j1 j2 p q.
  - cbn. split; intros H; discriminate H.
  - rewrite imap_cons, filter_cons. cbn [snd].
    assert (E : imap ((fun (j : nat) (v : Z) => ((k + j)%nat, v)) ∘ S) mem
                = imap (fun j v => ((S k + j)%nat, v)) mem).
    { apply imap_ext. intros j y _. cbn. f_equal. lia. }
    rewrite E. destruct (decide (x <> 0)) as [Hx|Hx].
    + split.
      * destruct j1 as [|j1]; cbn [lookup list_lookup].
        -- intros H. injection H as <-. cbn. lia.
        -- intros H. destruct (IH (S k) j1 j2 p q) as [IH1 _].
           specialize (IH1 H). lia.
      * destruct j1 as [|j1], j2 as [|j2]; cbn [lookup list_lookup]; try lia.
        -- intros H1 H2 _. injection H1 as <-. cbn [fst].
           destruct (IH (S k) j2 j2 q q) as [IH1 _]. specialize (IH1 H2). lia.
        -- intros H1 H2 Hlt. destruct (IH (S k) j1 j2 p q) as [_ IH2].
           apply IH2; auto. lia.
    + destruct (IH (S k) j1 j2 p q) as [IH1 IH2].
      split; [intros H; specialize (IH1 H); lia | exact IH2].
Qed.

Lemma touched_ascending mem (j1 j2 : nat) p q :
  touched mem !! j1 = Some p -> touched mem !! j2 = Some q ->
  (j1 < j2)%nat -> (fst p < fst q)%nat.
Proof. apply (touched_from_sorted mem 0 j1 j2 p q). Qed.

Lemma output_text_tuples l :
  Forall (fun p : nat * Z => Z.of_nat (fst p) < 2 ^ 32 /\ 0 <= snd p < 2 ^ 32) l ->
  output_text (map tuple_event l)
  = foldr (fun p acc => report_line (Z.of_nat (fst p)) (snd p) +:+ acc)
          EmptyString l.
Proof.
  induction 1 as [|p l [Hi Hv] _ IH]; [reflexivity|].
  cbn [map output_text foldr tuple_event]. fold (output_text (map tuple_event l)).
  rewrite render_tuple by lia. cbn [default]. rewrite IH. reflexivity.
Qed.

(** C5: after classification [show_tuples] prints exactly one line per
    bitmap entry that is not zero, in ascending order of the index over
    0 .. MAP_SIZE-1, and nothing for an entry that is zero; a line is the
    index in decimal, padded with zeros on the left to five digits, a slash,
    the classified value in decimal, and a newline. *)
Theorem show_tuples_report MAP_SIZE s raw :
  shm s = Some raw -> is_region MAP_SIZE raw = true -> MAP_SIZE < 2 ^ 32 ->
  exists s' lines,
    show_tuples MAP_SIZE s = Continue tt s' /\
    log s' = log s ++ map tuple_event lines /\
    (forall (i : nat) v,
        (i, v) ∈ lines <-> (classify <$> raw !! i) = Some v /\ v <> 0) /\
    (forall (j1 j2 : nat) p q,
        lines !! j1 = Some p -> lines !! j2 = Some q ->
        (j1 < j2)%nat -> (fst p < fst q)%nat) /\
    output_text (map tuple_event lines)
    = foldr (fun p acc => report_line (Z.of_nat (fst p)) (snd p) +:+ acc)
            EmptyString lines /\
    (MAP_SIZE <= 100000 ->
     forall (i : nat) v,
       (i, v) ∈ lines ->
       String.length (fill "0" (5 - String.length (dec (Z.of_nat i)))
                      +:+ dec (Z.of_nat i)) = 5%nat).
Proof.
  intros Hs Hr Hm.
  exists (add_log (map tuple_event (touched (map classify raw)))
                  (set_shm (Some (map classify raw)) s)),
         (touched (map classify raw)).
  pose proof (map_classify_region _ _ Hr) as Hr'.
  apply is_region_spec in Hr' as [Hl Hb].
  assert (Hin : forall (i : nat) v,
             (i, v) ∈ touched (map classify raw) ->
             Z.of_nat i < MAP_SIZE /\ 0 <= v <= 255).
  { intros i v Hi. apply touched_lookup in Hi as [Hi _]. split.
    - apply lookup_lt_Some in Hi. lia.
    - eapply Forall_lookup_1 in Hb; eauto. }
  split; [apply show_tuples_spec; assumption|].
  split; [reflexivity|]. split; [|split; [|split]].
  - intros i v. rewrite touched_lookup, list_lookup_fmap. reflexivity.
  - intros j1 j2 p q. apply touched_ascending.
  - apply output_text_tuples. apply Forall_forall. intros [i v] Hi.
    apply Hin in Hi. cbn [fst snd]. lia.
  - intros Hsz i v Hi. apply Hin in Hi. apply index_field_width. lia.
Qed.

Lemma show_tuples_report_witness :
  let raw := <[10%nat := 1]> (<[20%nat := 5]> (replicate (Z.to_nat 65536) 0)) in
  let s := set_shm (Some raw) init_state in
  exists s' lines,
    show_tuples 65536 s = Continue tt s' /\
    log s' = log s ++ map tuple_event lines /\
    (forall (i : nat) v,
        (i, v) ∈ lines <-> (classify <$> raw !! i) = Some v /\ v <> 0) /\
    (forall (j1 j2 : nat) p q,
        lines !! j1 = Some p -> lines !! j2 = Some q ->
        (j1 < j2)%nat -> (fst p < fst q)%nat) /\
    output_text (map tuple_event lines)
    = foldr (fun p acc => report_line (Z.of_nat (fst p)) (snd p) +:+ acc)
            EmptyString lines /\
    (65536 <= 100000 ->
     forall (i : nat) v,
       (i, v) ∈ lines ->
       String.length (fill "0" (5 - String.length (dec (Z.of_nat i)))
                      +:+ dec (Z.of_nat i)) = 5%nat).
Proof.
  intros raw s. apply (show_tuples_report 65536 s raw);
    [reflexivity | vm_compute; reflexivity | lia].
Defined.

Lemma touched_classified_indices mem :
  Forall (fun v => 0 <= v <= 255) mem ->
  map fst (touched (map classify mem)) = map fst (touched mem).
Proof.
  intros Hb. unfold touched.
  assert (G : forall k l, Forall (fun v => 0 <= v <= 255) l ->
            map fst (filter (fun p : nat * Z => snd p <> 0)
                       (imap (fun j v => ((k + j)%nat, v)) (map classify l)))
            = map fst (filter (fun p : nat * Z => snd p <> 0)
                         (imap (fun j v => ((k + j)%nat, v)) l))).
  { intros k l Hl. revert k. induction Hl as [|x l Hx Hl IH]; intros k.
    - reflexivity.
    - cbn [map]. rewrite !imap_cons, !filter_cons. cbn [snd].
      assert (E : forall m : list Z,
                 imap ((fun (j : nat) (v : Z) => ((k + j)%nat, v)) ∘ S) m
                 = imap (fun j v => ((S k + j)%nat, v)) m).
      { intros m. apply imap_ext. intros j y _. cbn. f_equal. lia. }
      rewrite !E. pose proof (classify_zero x Hx) as Hz.
      destruct (decide (classify x <> 0)) as [Hc|Hc],
               (decide (x <> 0)) as [Hn|Hn]; cbn [map fst].
      + f_equal. apply IH.
      + exfalso. apply Hc. apply Hz. destruct (Z.eq_dec x 0); tauto.
      + exfalso. apply Hc. intros Hc'. apply Hn, Hz, Hc'.
      + apply IH. }
  apply (G 0%nat mem Hb).
Qed.

Lemma classified_support mem (i : nat) :
  Forall (fun v => 0 <= v <= 255) mem ->
  (exists v', map classify mem !! i = Some v' /\ v' <> 0) <->
  (exists v, mem !! i = Some v /\ v <> 0).
Proof.
  intros Hb. rewrite list_lookup_fmap. destruct (mem !! i) as [v|] eqn:Ei.
  - assert (Hv : 0 <= v <= 255) by (eapply Forall_lookup_1 in Hb; eauto).
    cbn. split.
    + intros (v' & E & Hne). injection E as <-. exists v. split; [reflexivity|].
      intros ->. apply Hne. reflexivity.
    + intros (v0 & E & Hne). injection E as <-. exists (classify v).
      split; [reflexivity|]. rewrite classify_zero by exact Hv. exact Hne.
  - cbn. split; intros (? & E & _); discriminate E.
Qed.

(** C10: classification keeps the support of the bitmap.  A byte is
    classified to 0 exactly when it is 0, so after [classify_counts] the
    entries that are not zero are at the same indices as before; and
    [show_tuples], run on the raw region, prints one line for each index
    whose raw entry is not zero, and no other line: the indices of the lines
    it adds to the log are, in order, those of the raw entries that are not
    zero, each once. *)
Theorem classification_keeps_support MAP_SIZE mem s :
  shm s = Some mem -> is_region MAP_SIZE mem = true -> MAP_SIZE < 2 ^ 32 ->
  (forall v, 0 <= v <= 255 -> (classify v = 0 <-> v = 0)) /\
  (exists mem',
      classify_counts MAP_SIZE mem = Some mem' /\
      (forall i : nat,
          (exists v', mem' !! i = Some v' /\ v' <> 0) <->
          (exists v, mem !! i = Some v /\ v <> 0)) /\
      map fst (touched mem') = map fst (touched mem) /\
      exists s' lines,
        show_tuples MAP_SIZE s = Continue tt s' /\
        shm s' = Some mem' /\
        log s' = log s ++ map tuple_event lines /\
        (forall i : nat,
            (exists v', (i, v') ∈ lines) <->
            (exists v, mem !! i = Some v /\ v <> 0)) /\
        (forall (j1 j2 : nat) p q,
            lines !! j1 = Some p -> lines !! j2 = Some q ->
            fst p = fst q -> j1 = j2) /\
        map fst lines = map fst (touched mem)).
Proof.
  intros Hshm Hr Hs. split; [intros v Hv; apply classify_zero, Hv|].
  exists (map classify mem). split; [apply classify_counts_spec; assumption|].
  pose proof (show_tuples_spec MAP_SIZE s mem Hshm Hr Hs) as Hrun.
  apply is_region_spec in Hr as [_ Hb].
  split; [intros i; apply classified_support, Hb|].
  split; [apply touched_classified_indices, Hb|].
  eexists. exists (touched (map classify mem)).
  split; [exact Hrun|]. split; [reflexivity|]. split; [reflexivity|].
  split; [|split].
  - intros i. rewrite <- (classified_support mem i Hb).
    split; intros (v' & Hv'); exists v'; apply touched_lookup, Hv'.
  - intros j1 j2 p q Hp Hq Hfst.
    destruct (Nat.lt_trichotomy j1 j2) as [Hlt|[Heq|Hgt]]; [|exact Heq|].
    + pose proof (touched_ascending _ j1 j2 p q Hp Hq Hlt). lia.
    + pose proof (touched_ascending _ j2 j1 q p Hq Hp Hgt). lia.
  - apply touched_classified_indices, Hb.
Qed.

Lemma classification_keeps_support_witness :
  let mem := <[10%nat := 1]> (<[20%nat := 5]> (replicate (Z.to_nat 65536) 0)) in
  let s := set_shm (Some mem) init_state in
  (forall v, 0 <= v <= 255 -> (classify v = 0 <-> v = 0)) /\
  (exists mem',
      classify_counts 65536 mem = Some mem' /\
      (forall i : nat,
          (exists v', mem' !! i = Some v' /\ v' <> 0) <->
          (exists v, mem !! i = Some v /\ v <> 0)) /\
      map fst (touched mem') = map fst (touched mem) /\
      exists s' lines,
        show_tuples 65536 s = Continue tt s' /\
        shm s' = Some mem' /\
        log s' = log s ++ map tuple_event lines /\
        (forall i : nat,
            (exists v', (i, v') ∈ lines) <->
            (exists v, mem !! i = Some v /\ v <> 0)) /\
        (forall (j1 j2 : nat) p q,
            lines !! j1 = Some p -> lines !! j2 = Some q ->
            fst p = fst q -> j1 = j2) /\
        map fst lines = map fst (touched mem)).
Proof.
  intros mem s. apply (classification_keeps_support 65536 mem s);
    [reflexivity | vm_compute; reflexivity | lia].
Defined.

(** The two lines of the report for a bitmap whose entries 10 and 20 were
    hit once and five times. *)
Example report_text_example :
  report_text (<[10%nat := 1]> (<[20%nat := 5]> (replicate 32 0)))
  = "00010/1" +:+ nl +:+ "00020/8" +:+ nl.
Proof. vm_compute. reflexivity. Qed.

(** ** Paths of the run *)

Ltac usage_leaf :=
  unfold usage_spec;
  cbn [exit_status final_state];
  norm_proj; cbn [app];
  repeat split.

Lemma run_usage MAP_SIZE FORKSRV_FD SHM_ENV_VAR VERSION cCYA cBRI cRST
    BUILD_DATE BUILD_TIME fatal_status (big_endian : bool) w :
  Z.of_nat (length (w_argv w)) < 2 ->
  usage_spec (banner_fmt VERSION cCYA cBRI cRST BUILD_DATE BUILD_TIME)
    (w_quiet w) (w_argv w !! 0%nat)
    (run MAP_SIZE FORKSRV_FD SHM_ENV_VAR VERSION cCYA cBRI cRST BUILD_DATE
         BUILD_TIME fatal_status big_endian w).
Proof.
  intros Harg.
  destruct w as [argv quiet sink shmget shmat [r1 [st0 st1]] [r2 [ct0 ct1]]
                 fork write read bitmap getrl open dup2 execvp].
  cbn [w_argv w_quiet] in *.
  unfold_tool.
  destruct quiet; simp_state; (repeat step); usage_leaf.
Qed.

Ltac handshake_leaf :=
  unfold handshake_spec;
  cbn [exit_status final_state];
  norm_proj; rewrite <- ?app_assoc; cbn [app];
  eexists; split; [reflexivity|];
  cbn [List.filter is_write is_read is_fatal is_say replicate];
  repeat split; intros;
  first [ discriminate | reflexivity | lia
        | (eexists; split; [reflexivity|]; norm_proj; reflexivity) ].

Lemma run_target_handshake FORKSRV_FD fatal_status w argv s :
  fst (w_pipe_st w) = 0 -> fst (w_pipe_ctl w) = 0 -> 0 < to_s32 (w_fork w) ->
  handshake_spec fatal_status (fst (snd (w_pipe_st w))) (snd (snd (w_pipe_ctl w)))
    (handshake_ok w (n_read s)) (reads_made w (n_read s))
    (to_s32 (snd (w_read w (S (n_read s)))))
    (WIFSIGNALED (to_s32 (snd (w_read w (S (S (n_read s)))))))
    (WTERMSIG (to_s32 (snd (w_read w (S (S (n_read s))))))) (log s)
    (run_target FORKSRV_FD fatal_status w argv s).
Proof.
  intros Hst Hctl Hfork.
  destruct w as [wargv quiet sink shmget shmat [r1 [st0 st1]] [r2 [ct0 ct1]]
                 fork write read bitmap getrl open dup2 execvp].
  cbn [w_pipe_st w_pipe_ctl w_fork fst snd] in *. subst r1 r2.
  unfold handshake_ok, reads_made.
  unfold_tool. simp_state. repeat step. all: handshake_leaf.
Qed.

(** ** The run as a whole *)

Lemma success_toggles quiet sink w : success (with_toggles quiet sink w) = success w.
Proof. reflexivity. Qed.



(** C8: called without a target argument, the tool prints the usage text
    and exits with status 1 before [setup_shm] runs: the log holds the
    banner (unless quiet) and the usage text only, so neither [shmget] nor
    [shmat] is called and no region is attached. *)
Theorem usage_without_argument MAP_SIZE FORKSRV_FD SHM_ENV_VAR VERSION cCYA
    cBRI cRST BUILD_DATE BUILD_TIME fatal_status (big_endian : bool) w :
  Z.of_nat (length (w_argv w)) < 2 ->
  let r := run MAP_SIZE FORKSRV_FD SHM_ENV_VAR VERSION cCYA cBRI cRST
               BUILD_DATE BUILD_TIME fatal_status big_endian w in
  exit_status r = Some 1 /\ exit_status r <> Some 0 /\
  log (final_state r)
  = (if w_quiet w
     then []
     else [Say (banner_fmt VERSION cCYA cBRI cRST BUILD_DATE BUILD_TIME) []])
    ++ [Say usage_fmt [PStr (w_argv w !! 0%nat)]] /\
  List.filter is_shm_call (log (final_state r)) = [] /\
  shm (final_state r) = None.
Proof.
  intros Harg r.
  destruct (run_usage MAP_SIZE FORKSRV_FD SHM_ENV_VAR VERSION cCYA cBRI cRST
              BUILD_DATE BUILD_TIME fatal_status big_endian w Harg)
    as (He & Hl & Hs).
  fold r in He, Hl, Hs. rewrite He, Hl.
  repeat split; try assumption; try discriminate.
  destruct (w_quiet w); reflexivity.
Qed.

Lemma usage_without_argument_witness :
  let w := {| w_argv := ["afl-showmap"]%string;
              w_quiet := false; w_sink := false;
              w_shmget := 5; w_shmat := 4096;
              w_pipe_st := (0, (3, 4)); w_pipe_ctl := (0, (5, 6));
              w_fork := 1234; w_write := 4;
              w_read := fun k => (4, 0);
              w_bitmap := [];
              w_getrlimit := (0, 1024); w_open := 7; w_dup2 := fun _ => 0;
              w_execvp := true |} in
  let r := run 65536 198 "__AFL_SHM_ID" "0.44b" "" "" "" "Jan  1 2014" "00:00:00"
               1 false w in
  exit_status r = Some 1 /\ exit_status r <> Some 0 /\
  log (final_state r)
  = (if w_quiet w
     then []
     else [Say (banner_fmt "0.44b" "" "" "" "Jan  1 2014" "00:00:00") []])
    ++ [Say usage_fmt [PStr (w_argv w !! 0%nat)]] /\
  List.filter is_shm_call (log (final_state r)) = [] /\
  shm (final_state r) = None.
Proof.
  intros w r.
  apply (usage_without_argument 65536 198 "__AFL_SHM_ID" "0.44b" "" "" ""
           "Jan  1 2014" "00:00:00" 1 false w).
  cbn. lia.
Defined.

(** C9: two runs that differ only in [AFL_QUIET] and [AFL_SINK_OUTPUT], on
    the same bitmap and the same answers of the environment, emit the same
    sequence of tuple report lines, with the same text, and end with status
    0 together: the toggles decide neither whether [show_tuples] prints nor
    what it prints. *)
Theorem toggles_keep_report MAP_SIZE FORKSRV_FD SHM_ENV_VAR VERSION cCYA cBRI
    cRST BUILD_DATE BUILD_TIME fatal_status (big_endian : bool) w
    (quiet1 sink1 quiet2 sink2 : bool) :
  is_region MAP_SIZE (w_bitmap w) = true -> MAP_SIZE mod 4 = 0 ->
  8 * MAP_SIZE < 2 ^ 32 -> fatal_status <> 0 ->
  let r1 := run MAP_SIZE FORKSRV_FD SHM_ENV_VAR VERSION cCYA cBRI cRST
                BUILD_DATE BUILD_TIME fatal_status big_endian
                (with_toggles quiet1 sink1 w) in
  let r2 := run MAP_SIZE FORKSRV_FD SHM_ENV_VAR VERSION cCYA cBRI cRST
                BUILD_DATE BUILD_TIME fatal_status big_endian
                (with_toggles quiet2 sink2 w) in
  tuple_lines (log (final_state r1)) = tuple_lines (log (final_state r2)) /\
  output_text (tuple_lines (log (final_state r1)))
  = output_text (tuple_lines (log (final_state r2))) /\
  tuple_lines (log (final_state r1))
  = (if success w
     then map tuple_event (touched (map classify (w_bitmap w)))
     else []) /\
  (exit_status r1 = Some 0 <-> exit_status r2 = Some 0).
Proof.
  intros Hreg Hmod Hsz Hfs r1 r2.
  destruct (run_outcome MAP_SIZE FORKSRV_FD SHM_ENV_VAR VERSION cCYA cBRI cRST
              BUILD_DATE BUILD_TIME fatal_status big_endian
              (with_toggles quiet1 sink1 w) Hreg Hmod Hsz Hfs) as [Hz1 Hl1].
  destruct (run_outcome MAP_SIZE FORKSRV_FD SHM_ENV_VAR VERSION cCYA cBRI cRST
              BUILD_DATE BUILD_TIME fatal_status big_endian
              (with_toggles quiet2 sink2 w) Hreg Hmod Hsz Hfs) as [Hz2 Hl2].
  fold r1 in Hz1, Hl1. fold r2 in Hz2, Hl2.
  rewrite success_toggles in Hz1, Hl1, Hz2, Hl2.
  cbn [with_toggles w_bitmap] in Hl1, Hl2.
  rewrite Hl1, Hl2, Hz1, Hz2. repeat split; auto.
Qed.

Lemma toggles_keep_report_witness :
  let w := sample_world in
  let r1 := run 65536 198 "__AFL_SHM_ID" "0.44b" "" "" "" "Jan  1 2014"
                "00:00:00" 1 false (with_toggles false false w) in
  let r2 := run 65536 198 "__AFL_SHM_ID" "0.44b" "" "" "" "Jan  1 2014"
                "00:00:00" 1 false (with_toggles true true w) in
  tuple_lines (log (final_state r1)) = tuple_lines (log (final_state r2)) /\
  output_text (tuple_lines (log (final_state r1)))
  = output_text (tuple_lines (log (final_state r2))) /\
  tuple_lines (log (final_state r1))
  = (if success w
     then map tuple_event (touched (map classify (w_bitmap w)))
     else []) /\
  (exit_status r1 = Some 0 <-> exit_status r2 = Some 0).
Proof.
  intros w r1 r2.
  apply (toggles_keep_report 65536 198 "__AFL_SHM_ID" "0.44b" "" "" ""
           "Jan  1 2014" "00:00:00" 1 false w false false true true);
    [vm_compute; reflexivity | reflexivity | lia | lia].
Defined.

(** C7: in the handshake the parent writes the trigger once and reads
    four-byte fields from the status pipe, in the order acknowledgement,
    worker pid, exit status.  When every read returns 4 and the pid is
    positive there are exactly three reads and [run_target] returns, with
    the pid stored and the status read last deciding the signal line; when a
    read returns another count or the pid is not
    positive, the tool ends with the fatal status and the single message
    "No instrumentation detected or fork server fault", having made no read
    after the failing one: never more than three, never one twice. *)
Theorem handshake_reads_three_fields FORKSRV_FD fatal_status w argv s :
  fst (w_pipe_st w) = 0 -> fst (w_pipe_ctl w) = 0 -> 0 < to_s32 (w_fork w) ->
  let r := run_target FORKSRV_FD fatal_status w argv s in
  let k := n_read s in
  exists new,
    log (final_state r) = log s ++ new /\
    List.filter is_write new = [Write (snd (snd (w_pipe_ctl w))) 4] /\
    List.filter is_read new
    = replicate (reads_made w k) (Read (fst (snd (w_pipe_st w))) 4) /\
    (reads_made w k <= 3)%nat /\
    (handshake_ok w k = true ->
     reads_made w k = 3%nat /\ List.filter is_fatal new = [] /\
     List.filter is_say new
     = (if WIFSIGNALED (to_s32 (snd (w_read w (S (S k)))))
        then [Say ("+++ Killed by signal %u +++" +:+ nl)
                  [PInt (WTERMSIG (to_s32 (snd (w_read w (S (S k))))))]]
        else []) /\
     exists s', r = Continue tt s' /\
                child_pid s' = to_s32 (snd (w_read w (S k)))) /\
    (handshake_ok w k = false ->
     exit_status r = Some fatal_status /\
     List.filter is_fatal new = [Fatal handshake_msg []]).
Proof.
  intros Hst Hctl Hfork r k.
  apply (run_target_handshake FORKSRV_FD fatal_status w argv s Hst Hctl Hfork).
Qed.

Lemma handshake_reads_three_fields_witness :
  let w := sample_world in
  let s := init_state in
  let r := run_target 198 1 w ["./target"]%string s in
  let k := n_read s in
  exists new,
    log (final_state r) = log s ++ new /\
    List.filter is_write new = [Write (snd (snd (w_pipe_ctl w))) 4] /\
    List.filter is_read new
    = replicate (reads_made w k) (Read (fst (snd (w_pipe_st w))) 4) /\
    (reads_made w k <= 3)%nat /\
    (handshake_ok w k = true ->
     reads_made w k = 3%nat /\ List.filter is_fatal new = [] /\
     List.filter is_say new
     = (if WIFSIGNALED (to_s32 (snd (w_read w (S (S k)))))
        then [Say ("+++ Killed by signal %u +++" +:+ nl)
                  [PInt (WTERMSIG (to_s32 (snd (w_read w (S (S k))))))]]
        else []) /\
     exists s', r = Continue tt s' /\
                child_pid s' = to_s32 (snd (w_read w (S k)))) /\
    (handshake_ok w k = false ->
     exit_status r = Some 1 /\
     List.filter is_fatal new = [Fatal handshake_msg []]).
Proof.
  intros w s r k.
  apply (handshake_reads_three_fields 198 1 w ["./target"]%string s);
    [reflexivity | reflexivity | vm_compute; reflexivity].
Defined.

(** * Further properties of the code *)

(** ** The word-wise count on any word *)

Lemma val_testbits v n : forall a,
  0 <= v ->
  val 2 (map (fun k => Z.b2z (Z.testbit v (Z.of_nat k))) (seq a n))
  = (v / 2 ^ Z.of_nat a) mod 2 ^ Z.of_nat n.
Proof.
  induction n as [|n IH]; intros a Hv.
  - cbn [seq map val]. change (2 ^ Z.of_nat 0) with 1. rewrite Z.mod_1_r. reflexivity.
  - cbn [seq map val]. rewrite IH by assumption.
    rewrite Z.testbit_spec' by lia.
    replace (2 ^ Z.of_nat (S n)) with (2 * 2 ^ Z.of_nat n)
      by (rewrite Nat2Z.inj_succ, Z.pow_succ_r by lia; reflexivity).
    assert (Hp : 0 < 2 ^ Z.of_nat n) by (apply Z.pow_pos_nonneg; lia).
    assert (Hq : 0 < 2 ^ Z.of_nat a) by (apply Z.pow_pos_nonneg; lia).
    rewrite Z.rem_mul_r by lia.
    replace (v / 2 ^ Z.of_nat (S a)) with (v / 2 ^ Z.of_nat a / 2); [reflexivity|].
    rewrite Nat2Z.inj_succ, Z.pow_succ_r by lia.
    rewrite Z.div_div by lia. f_equal. lia.
Qed.

Lemma word_bits_val v : 0 <= v < 2 ^ 32 -> val 2 (word_bits v) = v.
Proof.
  intros Hv. unfold word_bits. rewrite val_testbits by lia.
  change (2 ^ Z.of_nat 0) with 1. rewrite Z.div_1_r.
  change (Z.of_nat 32) with 32. apply Z.mod_small. lia.
Qed.

Lemma word_bits_below v : digits_below 2 (word_bits v).
Proof.
  unfold digits_below, word_bits. apply Forall_forall. intros x Hx.
  apply list_elem_of_In, in_map_iff in Hx. destruct Hx as [k [<- _]].
  destruct (Z.testbit v (Z.of_nat k)); cbn; lia.
Qed.

(** X1: the three statements of the loop body of [count_bits] give, for
    every 32-bit word, the number of its bits that are set, a number from 0
    to 32. *)
Theorem popcount_word_counts_bits v :
  0 <= v < 2 ^ 32 ->
  popcount_word v = sum_digits (word_bits v) /\ 0 <= popcount_word v <= 32.
Proof.
  intros Hv.
  assert (H : popcount_word v = sum_digits (word_bits v)).
  { rewrite <- (word_bits_val v Hv) at 1.
    apply popcount_word_bits; [reflexivity | apply word_bits_below]. }
  split; [exact H|]. rewrite H.
  pose proof (word_bits_below v) as Hb.
  assert (Hl : length (word_bits v) = 32%nat) by reflexivity.
  revert Hb Hl. generalize (word_bits v). intros l Hb.
  assert (Hs : 0 <= sum_digits l <= Z.of_nat (length l)).
  { induction Hb as [|d l Hd _ IH]; cbn [sum_digits foldr length] in *; [lia|].
    fold (sum_digits l). lia. }
  intros Hl. rewrite Hl in Hs. lia.
Qed.

Lemma popcount_word_counts_bits_witness :
  0 <= 0x80000001 < 2 ^ 32 /\
  popcount_word 0x80000001 = sum_digits (word_bits 0x80000001) /\
  0 <= popcount_word 0x80000001 <= 32.
Proof.
  split; [lia|]. apply (popcount_word_counts_bits 0x80000001). lia.
Defined.

(** ** [count_bits] on a region *)

Lemma count_set_bits_zero_iff mem :
  Forall (fun v => 0 <= v <= 255) mem ->
  (count_set_bits mem = 0 <-> Forall (fun v => v = 0) mem).
Proof.
  intros Hm. pose proof (count_set_bits_pos mem Hm) as Hp.
  pose proof (count_set_bits_range mem) as Hr.
  split.
  - intros H0. apply Forall_lookup. intros i v Hi.
    destruct (Z.eq_dec v 0) as [|Hv]; [assumption|].
    assert (0 < count_set_bits mem) by (apply Hp; eauto). lia.
  - intros Hz. destruct (Z.eq_dec (count_set_bits mem) 0) as [|Hn]; [assumption|].
    assert (Hpos : 0 < count_set_bits mem) by lia.
    apply Hp in Hpos as (i & v & Hi & Hv).
    rewrite Forall_lookup in Hz. specialize (Hz i v Hi). contradiction.
Qed.

(** X2: [count_bits] gives the same number whichever the byte order of the
    machine, at most eight per byte of the region, and 0 exactly for a region
    whose bytes are all zero. *)
Theorem count_bits_zero_iff_blank MAP_SIZE (big_endian : bool) mem :
  is_region MAP_SIZE mem = true -> MAP_SIZE mod 4 = 0 ->
  8 * MAP_SIZE < 2 ^ 32 ->
  exists n,
    count_bits MAP_SIZE big_endian mem = Some n /\
    count_bits MAP_SIZE (negb big_endian) mem = Some n /\
    0 <= n <= 8 * MAP_SIZE /\
    (n = 0 <-> Forall (fun v => v = 0) mem).
Proof.
  intros Hreg Hmod Hsz. exists (count_set_bits mem).
  rewrite !count_bits_exact by assumption.
  apply is_region_spec in Hreg as [Hlen Hbytes].
  pose proof (count_set_bits_range mem).
  split; [reflexivity|]. split; [reflexivity|]. split; [lia|].
  apply count_set_bits_zero_iff, Hbytes.
Qed.

Lemma count_bits_zero_iff_blank_witness :
  let mem := <[10%nat := 1]> (<[20%nat := 5]> (replicate (Z.to_nat 65536) 0)) in
  exists n,
    count_bits 65536 false mem = Some n /\
    count_bits 65536 (negb false) mem = Some n /\
    0 <= n <= 8 * 65536 /\
    (n = 0 <-> Forall (fun v => v = 0) mem).
Proof.
  intros mem.
  apply (count_bits_zero_iff_blank 65536 false mem);
    [vm_compute; reflexivity | reflexivity | lia].
Defined.

(** X3: the loop of [count_bits] runs over [MAP_SIZE >> 2] words, so when
    [MAP_SIZE] is not a multiple of 4 the last [MAP_SIZE mod 4] bytes of the
    region are not counted. *)
Theorem count_bits_skips_trailing_bytes MAP_SIZE (big_endian : bool) mem :
  is_region MAP_SIZE mem = true -> MAP_SIZE < 2 ^ 32 ->
  count_bits MAP_SIZE big_endian mem
  = Some (wrap32 (count_set_bits (take (4 * Z.to_nat (MAP_SIZE / 4)) mem))).
Proof.
  intros Hreg Hsz. apply is_region_spec in Hreg as [Hlen Hbytes].
  assert (H0 : 0 <= MAP_SIZE) by lia.
  unfold count_bits. rewrite Z.shiftr_div_pow2 by lia. change (2 ^ 2) with 4.
  assert (Hq : 0 <= MAP_SIZE / 4 <= MAP_SIZE).
  { split; [apply Z.div_pos; lia|]. apply Z.div_le_upper_bound; lia. }
  rewrite wrap32_small by lia.
  assert (Hlt : (4 * Z.to_nat (MAP_SIZE / 4) <= length mem)%nat).
  { pose proof (Z.mul_div_le MAP_SIZE 4). lia. }
  pose proof (count_loop_spec big_endian (Z.to_nat (MAP_SIZE / 4)) 0 0 []
                (take (4 * Z.to_nat (MAP_SIZE / 4)) mem)
                (drop (4 * Z.to_nat (MAP_SIZE / 4)) mem)) as Hloop.
  cbn [app] in Hloop. rewrite take_drop in Hloop.
  rewrite Hloop; [reflexivity | reflexivity | | | lia].
  - rewrite length_take. lia.
  - apply Forall_take, Hbytes.
Qed.

Lemma count_bits_skips_trailing_bytes_witness :
  count_bits 6 false [1; 0; 0; 0; 0; 255]
  = Some (wrap32 (count_set_bits
                    (take (4 * Z.to_nat (6 / 4)) [1; 0; 0; 0; 0; 255]))) /\
  count_bits 6 false [1; 0; 0; 0; 0; 255] = Some 1.
Proof.
  split; [|reflexivity].
  apply (count_bits_skips_trailing_bytes 6 false [1; 0; 0; 0; 0; 255]);
    [reflexivity | lia].
Defined.

(** ** Counting after classification *)

Lemma classify_one_bit v :
  0 <= v <= 255 -> bits_of_byte (classify v) = if v =? 0 then 0 else 1.
Proof.
  intros Hv. apply Z.eqb_eq.
  apply (forall_u8 (fun v => bits_of_byte (classify v) =? if v =? 0 then 0 else 1));
    [|exact Hv].
  vm_compute. reflexivity.
Qed.

Lemma length_touched_from mem : forall (f : nat -> nat),
  Z.of_nat (length (filter (fun p : nat * Z => snd p <> 0)
                      (imap (fun j v => (f j, v)) mem)))
  = sum_digits (map (fun v => if v =? 0 then 0 else 1) mem).
Proof.
  induction mem as [|x mem IH]; intros f; [reflexivity|].
  cbn [imap map sum_digits foldr].
  fold (sum_digits (map (fun v => if v =? 0 then 0 else 1) mem)).
  rewrite <- (IH (fun j => f (S j))).
  rewrite filter_cons. cbn [snd].
  destruct (Z.eqb_spec x 0) as [->|Hx].
  - rewrite decide_False by (intros H; apply H; reflexivity). reflexivity.
  - rewrite decide_True by assumption. cbn [length].
    rewrite Nat2Z.inj_succ. unfold compose. lia.
Qed.

Lemma length_touched mem :
  Z.of_nat (length (touched mem))
  = sum_digits (map (fun v => if v =? 0 then 0 else 1) mem).
Proof. apply (length_touched_from mem (fun j => j)). Qed.

Lemma count_set_bits_classified mem :
  Forall (fun v => 0 <= v <= 255) mem ->
  count_set_bits (map classify mem) = Z.of_nat (length (touched mem)).
Proof.
  intros Hm. rewrite length_touched. unfold count_set_bits.
  induction Hm as [|x mem Hx _ IH]; [reflexivity|].
  cbn [map sum_digits foldr].
  fold (sum_digits (map bits_of_byte (map classify mem))).
  fold (sum_digits (map (fun v => if v =? 0 then 0 else 1) mem)).
  rewrite IH, classify_one_bit by assumption. reflexivity.
Qed.

(** X4: every classified entry has exactly one bit set, or none when the
    raw entry is 0, so on a region [classify_counts] has rewritten
    [count_bits] returns the number of entries that are not zero. *)
Theorem classified_bits_count_entries MAP_SIZE (big_endian : bool) raw :
  is_region MAP_SIZE raw = true -> MAP_SIZE mod 4 = 0 -> MAP_SIZE < 2 ^ 32 ->
  (forall v, 0 <= v <= 255 ->
             bits_of_byte (classify v) = if v =? 0 then 0 else 1) /\
  exists mem',
    classify_counts MAP_SIZE raw = Some mem' /\
    count_bits MAP_SIZE big_endian mem' = Some (Z.of_nat (length (touched raw))).
Proof.
  intros Hreg Hmod Hsz. split; [apply classify_one_bit|].
  exists (map classify raw).
  split; [apply classify_counts_spec; assumption|].
  rewrite count_bits_spec
    by (first [apply map_classify_region; assumption | assumption]).
  apply is_region_spec in Hreg as [Hlen Hbytes].
  rewrite count_set_bits_classified by assumption.
  rewrite wrap32_small; [reflexivity|].
  assert (length (touched raw) <= length raw)%nat; [|lia].
  unfold touched. etransitivity; [apply length_filter|].
  rewrite length_imap. reflexivity.
Qed.

Lemma classified_bits_count_entries_witness :
  let raw := <[10%nat := 1]> (<[20%nat := 5]> (replicate (Z.to_nat 65536) 0)) in
  (forall v, 0 <= v <= 255 ->
             bits_of_byte (classify v) = if v =? 0 then 0 else 1) /\
  exists mem',
    classify_counts 65536 raw = Some mem' /\
    count_bits 65536 false mem' = Some (Z.of_nat (length (touched raw))).
Proof.
  intros raw.
  apply (classified_bits_count_entries 65536 false raw);
    [vm_compute; reflexivity | reflexivity | lia].
Defined.

(** ** [show_tuples] called again *)

(** X5: [show_tuples] leaves the classified values in the region, so a
    second call classifies them again and reports the entries classified
    twice. *)
Theorem show_tuples_rewrites_region MAP_SIZE s raw :
  shm s = Some raw -> is_region MAP_SIZE raw = true -> MAP_SIZE < 2 ^ 32 ->
  exists s1 s2,
    show_tuples MAP_SIZE s = Continue tt s1 /\
    shm s1 = Some (map classify raw) /\
    show_tuples MAP_SIZE s1 = Continue tt s2 /\
    log s2
    = log s1 ++ map tuple_event (touched (map classify (map classify raw))) /\
    shm s2 = Some (map classify (map classify raw)).
Proof.
  intros Hshm Hreg Hsz.
  pose proof (show_tuples_spec MAP_SIZE s raw Hshm Hreg Hsz) as H1.
  set (s1 := add_log (map tuple_event (touched (map classify raw)))
                     (set_shm (Some (map classify raw)) s)) in H1.
  assert (Hshm1 : shm s1 = Some (map classify raw)) by reflexivity.
  pose proof (show_tuples_spec MAP_SIZE s1 (map classify raw) Hshm1
                (map_classify_region _ _ Hreg) Hsz) as H2.
  exists s1. eexists.
  split; [exact H1|]. split; [exact Hshm1|]. split; [exact H2|].
  split; reflexivity.
Qed.

Lemma show_tuples_rewrites_region_witness :
  let s := set_shm (Some [3; 0; 0; 1]) init_state in
  exists s1 s2,
    show_tuples 4 s = Continue tt s1 /\
    shm s1 = Some (map classify [3; 0; 0; 1]) /\
    show_tuples 4 s1 = Continue tt s2 /\
    log s2
    = log s1
      ++ map tuple_event (touched (map classify (map classify [3; 0; 0; 1]))) /\
    shm s2 = Some (map classify (map classify [3; 0; 0; 1])).
Proof.
  intros s.
  apply (show_tuples_rewrites_region 4 s [3; 0; 0; 1]);
    [reflexivity | reflexivity | lia].
Defined.

(** ** [setup_shm] *)

Lemma append_empty (a : string) : a +:+ EmptyString = a.
Proof.
  induction a as [|c a IH]; [reflexivity|].
  change (String c (a +:+ EmptyString) = String c a). rewrite IH. reflexivity.
Qed.

Lemma render_d n :
  0 <= to_s32 n -> render "%d" [PInt n] = Some (dec (to_s32 n)).
Proof.
  intros Hn.
  change (render "%d" [PInt n])
    with (Some ((if to_s32 n <? 0
                 then pad false 0 ("-" +:+ dec (- to_s32 n))
                 else pad false 0 (dec (to_s32 n))) +:+ EmptyString)).
  destruct (Z.ltb_spec (to_s32 n) 0); [lia|].
  rewrite append_empty. reflexivity.
Qed.

Lemma to_s32_idem x : to_s32 (to_s32 x) = to_s32 x.
Proof.
  unfold to_s32 at 2 3, wrap32.
  pose proof (Z.mod_pos_bound x (2 ^ 32) ltac:(lia)) as Hb.
  destruct (Z.ltb_spec (x mod 2 ^ 32) (2 ^ 31)) as [Hl|Hl].
  - unfold to_s32, wrap32. rewrite Z.mod_mod by lia.
    destruct (Z.ltb_spec (x mod 2 ^ 32) (2 ^ 31)); lia.
  - unfold to_s32, wrap32.
    replace ((x mod 2 ^ 32 - 2 ^ 32) mod 2 ^ 32) with (x mod 2 ^ 32).
    + destruct (Z.ltb_spec (x mod 2 ^ 32) (2 ^ 31)); lia.
    + apply Z.mod_unique_pos with (q := -1); lia.
Qed.

(** X6: [setup_shm], called before any handler is registered.  When
    [shmget] fails the process ends with the fatal status after the message,
    and nothing is exported, attached or removed.  Else the identifier is
    exported in decimal under [SHM_ENV_VAR] and the region attached; a null
    address ends the process with the fatal status, the handler removing the
    region; any other address, the -1 of a failed [shmat] included, lets
    [setup_shm] return, the handler registered, and after a failed [shmat]
    with nothing attached at [trace_bits]. *)
Theorem setup_shm_outcomes MAP_SIZE SHM_ENV_VAR fatal_status w s :
  at_exit s = false ->
  let id := to_s32 (w_shmget w) in
  let r := setup_shm MAP_SIZE SHM_ENV_VAR fatal_status w s in
  (id < 0 ->
   exit_status r = Some fatal_status /\
   log (final_state r)
   = log s ++ [Shmget MAP_SIZE; PFatal "shmget() failed" []]) /\
  (0 <= id -> w_shmat w = 0 ->
   exit_status r = Some fatal_status /\
   log (final_state r)
   = log s ++ [Shmget MAP_SIZE; Setenv SHM_ENV_VAR (dec id); Shmat id;
               PFatal "shmat() failed" []; ShmRemove id]) /\
  (0 <= id -> w_shmat w <> 0 ->
   exists s',
     r = Continue tt s' /\
     log s' = log s ++ [Shmget MAP_SIZE; Setenv SHM_ENV_VAR (dec id); Shmat id] /\
     shm_id s' = id /\ at_exit s' = true /\ trace_bits s' = w_shmat w /\
     shm s' = attached (w_shmat w) MAP_SIZE /\
     (w_shmat w = -1 -> shm s' = None)).
Proof.
  intros Hex id r. subst r.
  unfold setup_shm.
  cbv [mbind M_bind mret M_ret gets modify halt when PFATAL exit remove_shm emit].
  cbv beta zeta iota. simp_state.
  fold id.
  destruct (Z.ltb_spec id 0) as [Hneg|Hpos].
  - simp_state. rewrite Hex. simp_state.
    split; [|split]; [|intros; exfalso; lia..].
    intros _. cbn [exit_status final_state]. norm_proj.
    rewrite <- ?app_assoc. split; reflexivity.
  - simp_state.
    assert (Hr : render "%d" [PInt id] = Some (dec id)).
    { unfold id. rewrite render_d; rewrite to_s32_idem; [reflexivity | exact Hpos]. }
    rewrite Hr. cbn [default].
    destruct (Z.eqb_spec (w_shmat w) 0) as [Hnull|Hptr].
    + simp_state.
      split; [intros; exfalso; lia|]. split; [|intros _ Hc; contradiction].
      intros _ _. cbn [exit_status final_state]. norm_proj.
      rewrite <- ?app_assoc. split; reflexivity.
    + simp_state.
      split; [intros; exfalso; lia|]. split; [intros _ Hc; contradiction|].
      intros _ _. eexists. split; [reflexivity|]. norm_proj.
      rewrite <- ?app_assoc.
      repeat split. intros ->. reflexivity.
Qed.

Lemma setup_shm_outcomes_witness :
  let w := detached_world in
  let s := init_state in
  let id := to_s32 (w_shmget w) in
  let r := setup_shm 65536 "__AFL_SHM_ID" 1 w s in
  (id < 0 ->
   exit_status r = Some 1 /\
   log (final_state r)
   = log s ++ [Shmget 65536; PFatal "shmget() failed" []]) /\
  (0 <= id -> w_shmat w = 0 ->
   exit_status r = Some 1 /\
   log (final_state r)
   = log s ++ [Shmget 65536; Setenv "__AFL_SHM_ID" (dec id); Shmat id;
               PFatal "shmat() failed" []; ShmRemove id]) /\
  (0 <= id -> w_shmat w <> 0 ->
   exists s',
     r = Continue tt s' /\
     log s' = log s ++ [Shmget 65536; Setenv "__AFL_SHM_ID" (dec id); Shmat id] /\
     shm_id s' = id /\ at_exit s' = true /\ trace_bits s' = w_shmat w /\
     shm s' = attached (w_shmat w) 65536 /\
     (w_shmat w = -1 -> shm s' = None)).
Proof.
  intros w s.
  apply (setup_shm_outcomes 65536 "__AFL_SHM_ID" 1 w s). reflexivity.
Defined.

(** ** The forked child *)





(** ** The log of a whole run *)

Lemma filter_tuple_events :
  forall l,
    List.filter is_say (map tuple_event l) = map tuple_event l /\
    List.filter is_fork (map tuple_event l) = [] /\
    List.filter is_shm_remove (map tuple_event l) = [] /\
    List.filter is_fatal (map tuple_event l) = [].
Proof.
  induction l as [|p l (IH1 & IH2 & IH3 & IH4)]; [repeat split|].
  cbn [map List.filter tuple_event is_say is_fork is_shm_remove is_fatal].
  rewrite IH1. repeat split; assumption.
Qed.

Ltac trace_leaf :=
  unfold trace_spec, success_says;
  cbn [exit_status final_state exited andb orb];
  norm_proj;
  rewrite ?last_snoc, ?List.filter_app;
  rewrite ?(proj1 (filter_tuple_events _)),
          ?(proj1 (proj2 (filter_tuple_events _))),
          ?(proj1 (proj2 (proj2 (filter_tuple_events _)))),
          ?(proj2 (proj2 (proj2 (filter_tuple_events _))));
  cbn [List.filter is_shm_remove is_fork is_say is_fatal app];
  rewrite ?app_nil_r;
  repeat split; intros;
  first [ discriminate | reflexivity | (eexists; reflexivity) ].

Lemma run_trace MAP_SIZE FORKSRV_FD SHM_ENV_VAR VERSION cCYA cBRI cRST
    BUILD_DATE BUILD_TIME fatal_status (big_endian : bool) w :
  is_region MAP_SIZE (w_bitmap w) = true -> MAP_SIZE mod 4 = 0 ->
  8 * MAP_SIZE < 2 ^ 32 ->
  trace_spec (cleanup_registered w) (to_s32 (w_shmget w))
    (reaches_fork w) (reaches_handshake w && handshake_ok w 0)
    (region_mapped w) (success w)
    (success_says (banner_fmt VERSION cCYA cBRI cRST BUILD_DATE BUILD_TIME)
       (tuples_recorded_fmt cBRI cRST) (w_quiet w) (w_sink w)
       (WIFSIGNALED (to_s32 (snd (w_read w 2))))
       (WTERMSIG (to_s32 (snd (w_read w 2))))
       (map tuple_event (touched (map classify (w_bitmap w)))))
    (run MAP_SIZE FORKSRV_FD SHM_ENV_VAR VERSION cCYA cBRI cRST BUILD_DATE
         BUILD_TIME fatal_status big_endian w).
Proof.
  intros Hreg Hmod Hsz.
  destruct w as [argv quiet sink shmget shmat [r1 [st0 st1]] [r2 [ct0 ct1]]
                 fork write read bitmap getrl open dup2 execvp].
  cbn [w_bitmap] in Hreg.
  unfold success, cleanup_registered, reaches_fork, reaches_handshake,
    handshake_ok, region_mapped.
  unfold_tool.
  destruct quiet, sink; simp_state; (repeat step).
  all: trace_leaf.
Qed.

(** X8: the region is removed by the handler, once and as the last thing
    the process does, on every run that ends by [exit] after [shmget] gave
    an identifier: the normal end, the fatal errors of the parent and those
    of the forked child alike.  It is not removed when the run ends before
    the handler is registered, when the process dies of a signal, or when
    the child is replaced by the target. *)
Theorem region_removed_on_exit MAP_SIZE FORKSRV_FD SHM_ENV_VAR VERSION cCYA
    cBRI cRST BUILD_DATE BUILD_TIME fatal_status (big_endian : bool) w :
  is_region MAP_SIZE (w_bitmap w) = true -> MAP_SIZE mod 4 = 0 ->
  8 * MAP_SIZE < 2 ^ 32 ->
  let r := run MAP_SIZE FORKSRV_FD SHM_ENV_VAR VERSION cCYA cBRI cRST
               BUILD_DATE BUILD_TIME fatal_status big_endian w in
  List.filter is_shm_remove (log (final_state r))
  = (if cleanup_registered w && exited r
     then [ShmRemove (to_s32 (w_shmget w))] else []) /\
  (cleanup_registered w && exited r = true ->
   last (log (final_state r)) = Some (ShmRemove (to_s32 (w_shmget w)))).
Proof.
  intros Hreg Hmod Hsz r.
  destruct (run_trace MAP_SIZE FORKSRV_FD SHM_ENV_VAR VERSION cCYA cBRI cRST
              BUILD_DATE BUILD_TIME fatal_status big_endian w Hreg Hmod Hsz)
    as (H1 & H2 & _).
  split; [exact H1 | exact H2].
Qed.

Lemma region_removed_on_exit_witness :
  let w := sample_world in
  let r := run 65536 198 "__AFL_SHM_ID" "0.44b" "" "" "" "Jan  1 2014"
               "00:00:00" 1 false w in
  List.filter is_shm_remove (log (final_state r))
  = (if cleanup_registered w && exited r
     then [ShmRemove (to_s32 (w_shmget w))] else []) /\
  (cleanup_registered w && exited r = true ->
   last (log (final_state r)) = Some (ShmRemove (to_s32 (w_shmget w)))).
Proof.
  intros w.
  apply (region_removed_on_exit 65536 198 "__AFL_SHM_ID" "0.44b" "" "" ""
           "Jan  1 2014" "00:00:00" 1 false w);
    [vm_compute; reflexivity | reflexivity | lia].
Defined.

(** X9: a run forks once when it gets as far as [fork], that is with a
    target argument, an identifier from [shmget], an address from [shmat]
    that is not null and both pipes made; otherwise it does not fork. *)
Theorem run_forks_once MAP_SIZE FORKSRV_FD SHM_ENV_VAR VERSION cCYA cBRI cRST
    BUILD_DATE BUILD_TIME fatal_status (big_endian : bool) w :
  is_region MAP_SIZE (w_bitmap w) = true -> MAP_SIZE mod 4 = 0 ->
  8 * MAP_SIZE < 2 ^ 32 ->
  let r := run MAP_SIZE FORKSRV_FD SHM_ENV_VAR VERSION cCYA cBRI cRST
               BUILD_DATE BUILD_TIME fatal_status big_endian w in
  List.filter is_fork (log (final_state r))
  = (if reaches_fork w then [Fork] else []).
Proof.
  intros Hreg Hmod Hsz r.
  destruct (run_trace MAP_SIZE FORKSRV_FD SHM_ENV_VAR VERSION cCYA cBRI cRST
              BUILD_DATE BUILD_TIME fatal_status big_endian w Hreg Hmod Hsz)
    as (_ & _ & H3 & _).
  exact H3.
Qed.

Lemma run_forks_once_witness :
  let w := sample_world in
  let r := run 65536 198 "__AFL_SHM_ID" "0.44b" "" "" "" "Jan  1 2014"
               "00:00:00" 1 false w in
  List.filter is_fork (log (final_state r))
  = (if reaches_fork w then [Fork] else []).
Proof.
  intros w.
  apply (run_forks_once 65536 198 "__AFL_SHM_ID" "0.44b" "" "" ""
           "Jan  1 2014" "00:00:00" 1 false w);
    [vm_compute; reflexivity | reflexivity | lia].
Defined.



(** X11: the messages of a run that succeeds, in order: the banner unless
    [AFL_QUIET] is set; the line that announces the program's output unless
    [AFL_QUIET] or [AFL_SINK_OUTPUT] is set; the signal line when the target
    was killed by a signal, whatever the settings; the line that closes the
    program's output, as the one that announces it; the heading of the
    report unless [AFL_QUIET] is set; and the lines of the report. *)
Theorem messages_of_successful_run MAP_SIZE FORKSRV_FD SHM_ENV_VAR VERSION
    cCYA cBRI cRST BUILD_DATE BUILD_TIME fatal_status (big_endian : bool) w :
  is_region MAP_SIZE (w_bitmap w) = true -> MAP_SIZE mod 4 = 0 ->
  8 * MAP_SIZE < 2 ^ 32 -> success w = true ->
  let r := run MAP_SIZE FORKSRV_FD SHM_ENV_VAR VERSION cCYA cBRI cRST
               BUILD_DATE BUILD_TIME fatal_status big_endian w in
  let status := to_s32 (snd (w_read w 2)) in
  List.filter is_say (log (final_state r))
  = (if w_quiet w then []
     else [Say (banner_fmt VERSION cCYA cBRI cRST BUILD_DATE BUILD_TIME) []])
    ++ (if w_quiet w || w_sink w then [] else [Say output_begins_fmt []])
    ++ (if WIFSIGNALED status
        then [Say ("+++ Killed by signal %u +++" +:+ nl) [PInt (WTERMSIG status)]]
        else [])
    ++ (if w_quiet w || w_sink w then [] else [Say output_ends_fmt []])
    ++ (if w_quiet w then [] else [Say (tuples_recorded_fmt cBRI cRST) []])
    ++ map tuple_event (touched (map classify (w_bitmap w))).
Proof.
  intros Hreg Hmod Hsz Hok r status.
  destruct (run_trace MAP_SIZE FORKSRV_FD SHM_ENV_VAR VERSION cCYA cBRI cRST
              BUILD_DATE BUILD_TIME fatal_status big_endian w Hreg Hmod Hsz)
    as (_ & _ & _ & _ & H5).
  exact (H5 Hok).
Qed.

Lemma messages_of_successful_run_witness :
  let w := sample_world in
  let r := run 65536 198 "__AFL_SHM_ID" "0.44b" "" "" "" "Jan  1 2014"
               "00:00:00" 1 false w in
  let status := to_s32 (snd (w_read w 2)) in
  List.filter is_say (log (final_state r))
  = (if w_quiet w then []
     else [Say (banner_fmt "0.44b" "" "" "" "Jan  1 2014" "00:00:00") []])
    ++ (if w_quiet w || w_sink w then [] else [Say output_begins_fmt []])
    ++ (if WIFSIGNALED status
        then [Say ("+++ Killed by signal %u +++" +:+ nl) [PInt (WTERMSIG status)]]
        else [])
    ++ (if w_quiet w || w_sink w then [] else [Say output_ends_fmt []])
    ++ (if w_quiet w then [] else [Say (tuples_recorded_fmt "" "") []])
    ++ map tuple_event (touched (map classify (w_bitmap w))).
Proof.
  intros w.
  apply (messages_of_successful_run 65536 198 "__AFL_SHM_ID" "0.44b" "" "" ""
           "Jan  1 2014" "00:00:00" 1 false w);
    [vm_compute; reflexivity | reflexivity | lia | vm_compute; reflexivity].
Defined.
